(** * Compact bilinear pooling: a shallow embedding of
      [compact_bilinear_pooling.py] and the properties of its specification.

    Conventions of the embedding.
    - A TensorFlow tensor is a static shape and its elements in row-major
      order ([Tensor]); calls are eager, so every dimension is known.  A
      numpy array is the same data under its own name ([ndarray]).
    - float32 / complex64 values are idealised as real and complex numbers
      ([R] and [C = R * R]); the elements of caller-supplied numpy arrays are
      rationals ([Q]), so that the [astype(np.int64)] truncation computes.
    - Library functions are given by their documented meaning on the ranks
      the source uses them at: [tf.signal.fft] is the discrete Fourier
      transform of each row, [tf.sparse.sparse_dense_matmul] the product with
      the dense matrix the sparse tensor stands for, [tf.multiply] the
      element-wise product with broadcasting.
    - Python exceptions are values of [exn]; a computation that can raise
      returns a [result].
    - The two pieces of process state the function touches, numpy's global
      generator and standard output, form the [World] threaded through [M].
      The generator itself is a parameter ([NumpyRandom]). *)

From Stdlib Require Import String Bool ZArith QArith Qreals Reals Lra Lia List.
Import ListNotations.

Close Scope Q_scope.
Close Scope R_scope.
Open Scope nat_scope.

Set Implicit Arguments.

(* ------------------------------------------------------------------ *)
(** ** Exceptions and results *)

Inductive exn : Type :=
| AssertionError
| ValueError
| IndexError
| InvalidArgumentError.

Inductive result (A : Type) : Type :=
| Ok (a : A)
| Raise (e : exn).

Arguments Ok {A} a.
Arguments Raise {A} e.

Definition rbind {A B} (r : result A) (k : A -> result B) : result B :=
  match r with
  | Ok a => k a
  | Raise e => Raise e
  end.

Definition is_ok {A} (r : result A) : bool :=
  match r with Ok _ => true | Raise _ => false end.

(** Python's [assert]. *)
Definition py_assert (b : bool) : result unit :=
  if b then Ok tt else Raise AssertionError.

(* ------------------------------------------------------------------ *)
(** ** Arrays and tensors *)

Record ndarray (A : Type) : Type := mk_ndarray
  { nd_shape : list nat; nd_data : list A }.

Record Tensor (A : Type) : Type := mk_tensor
  { shape : list nat; data : list A }.

Definition numel (s : list nat) : nat := fold_right Nat.mul 1 s.

Definition wf_tensor {A} (t : Tensor A) : Prop :=
  length (data t) = numel (shape t).

(** A one-dimensional numpy array holding [l]. *)
Definition array1 {A} (l : list A) : ndarray A :=
  {| nd_shape := [length l]; nd_data := l |}.

Definition ndim {A} (a : ndarray A) : nat := length (nd_shape a).

(** [len(a)] on an array of rank at least one. *)
Definition np_len {A} (a : ndarray A) : nat := hd 0 (nd_shape a).

(** [a.astype(np.int64)]: conversion to integer truncates toward zero.
    (Magnitudes are taken below 2^63, where the conversion is defined.) *)
Definition Qtrunc (q : Q) : Z := Z.quot (Qnum q) (Zpos (Qden q)).

Definition astype_int64 (a : ndarray Q) : ndarray Z :=
  {| nd_shape := nd_shape a; nd_data := map Qtrunc (nd_data a) |}.

(** [a.astype(np.float32)], with float32 idealised as [R]. *)
Definition astype_float32 (a : ndarray Q) : ndarray R :=
  {| nd_shape := nd_shape a; nd_data := map Q2R (nd_data a) |}.

(** [t.get_shape().as_list()[-1]]. *)
Definition last_dim {A} (t : Tensor A) : result nat :=
  match rev (shape t) with
  | [] => Raise IndexError
  | d :: _ => Ok d
  end.

(** [t.get_shape()[i]]. *)
Definition get_shape_at {A} (t : Tensor A) (i : nat) : result nat :=
  match nth_error (shape t) i with
  | Some d => Ok d
  | None => Raise IndexError
  end.

(** *** tf.reshape *)

(** The product of the sizes given explicitly. *)
Definition known_size (dims : list Z) : nat :=
  fold_right (fun d acc => if (d =? -1)%Z then acc else Z.to_nat d * acc) 1 dims.

(** The product of the sizes that are not zero. *)
Definition positive_size (s : list nat) : nat :=
  fold_right (fun d acc => if d =? 0 then acc else d * acc) 1 s.

Definition fill_dims (dims : list Z) (m : nat) : list nat :=
  map (fun d => if (d =? -1)%Z then m else Z.to_nat d) dims.

(** At most one entry of [dims] may be -1; it is inferred from the number of
    elements.  When a size 0 stands beside the -1, only a tensor without
    elements fits, and the missing size is inferred from the sizes that are
    not zero, on both sides.  The elements themselves are untouched. *)
Definition tf_reshape {A} (t : Tensor A) (dims : list Z) : result (Tensor A) :=
  let n := numel (shape t) in
  let k := known_size dims in
  if existsb (fun d => (d <? -1)%Z) dims then Raise InvalidArgumentError
  else match count_occ Z.eq_dec dims (-1)%Z with
       | 0 =>
           if k =? n
           then Ok {| shape := fill_dims dims 0; data := data t |}
           else Raise InvalidArgumentError
       | 1 =>
           if k =? 0
           then if n =? 0
                then Ok {| shape := fill_dims dims
                                      (positive_size (shape t)
                                       / positive_size (map Z.to_nat dims));
                           data := data t |}
                else Raise InvalidArgumentError
           else if n mod k =? 0
                then Ok {| shape := fill_dims dims (n / k); data := data t |}
                else Raise InvalidArgumentError
       | _ => Raise InvalidArgumentError
       end.

(** *** Rank-2 tensors *)

Definition nrows {A} (t : Tensor A) : nat := nth 0 (shape t) 0.
Definition ncols {A} (t : Tensor A) : nat := nth 1 (shape t) 0.

Definition get2 {A} (d : A) (t : Tensor A) (i j : nat) : A :=
  nth (i * ncols t + j) (data t) d.

Definition tabulate2 {A} (r c : nat) (f : nat -> nat -> A) : Tensor A :=
  {| shape := [r; c];
     data := flat_map (fun i => map (f i) (seq 0 c)) (seq 0 r) |}.

(** [tf.transpose] of a matrix. *)
Definition tf_transpose {A} (d : A) (t : Tensor A) : Tensor A :=
  tabulate2 (ncols t) (nrows t) (fun i j => get2 d t j i).

(* ------------------------------------------------------------------ *)
(** ** Real and complex arithmetic *)

Definition Rsum (l : list R) : R := fold_right Rplus 0%R l.

Definition C : Type := (R * R)%type.

Definition C0 : C := (0%R, 0%R).
Definition Cadd (x y : C) : C := ((fst x + fst y)%R, (snd x + snd y)%R).
Definition Cmul (x y : C) : C :=
  ((fst x * fst y - snd x * snd y)%R, (fst x * snd y + snd x * fst y)%R).
Definition Cscal (a : R) (x : C) : C := ((a * fst x)%R, (a * snd x)%R).
Definition Cconj (x : C) : C := (fst x, (- snd x)%R).
Definition Csum (l : list C) : C := fold_right Cadd C0 l.

(** The twiddle factor exp(-2 pi i k / n). *)
Definition omega (n k : nat) : C :=
  (cos (2 * PI * INR k / INR n), (- sin (2 * PI * INR k / INR n))%R).

(** [tf.complex(real, imag)]. *)
Definition tf_complex (re im : Tensor R) : Tensor C :=
  {| shape := shape re; data := combine (data re) (data im) |}.

(** [tf.zeros_like]. *)
Definition tf_zeros_like (t : Tensor R) : Tensor R :=
  {| shape := shape t; data := map (fun _ => 0%R) (data t) |}.

(** [tf.signal.fft] on a matrix: the discrete Fourier transform of each row. *)
Definition tf_signal_fft (t : Tensor C) : Tensor C :=
  let n := ncols t in
  tabulate2 (nrows t) n
    (fun r k => Csum (map (fun j => Cmul (get2 C0 t r j) (omega n (j * k)))
                          (seq 0 n))).

(** [tf.signal.ifft] on a matrix: the inverse transform of each row. *)
Definition tf_signal_ifft (t : Tensor C) : Tensor C :=
  let n := ncols t in
  tabulate2 (nrows t) n
    (fun r j => Cscal (/ INR n)
                  (Csum (map (fun k => Cmul (get2 C0 t r k)
                                            (Cconj (omega n (j * k))))
                             (seq 0 n)))).

(** Broadcasting of one dimension. *)
Definition broadcast_dim (m n : nat) : option nat :=
  if m =? n then Some m
  else if m =? 1 then Some n
  else if n =? 1 then Some m
  else None.

Definition bidx (extent i : nat) : nat := if extent =? 1 then 0 else i.

(** [tf.multiply] on matrices, with broadcasting.  Python's [None] is not a
    tensor: converting it raises [ValueError]. *)
Definition tf_multiply (a b : option (Tensor C)) : result (Tensor C) :=
  match a, b with
  | Some x, Some y =>
      match broadcast_dim (nrows x) (nrows y),
            broadcast_dim (ncols x) (ncols y) with
      | Some r, Some c =>
          Ok (tabulate2 r c
                (fun i j => Cmul (get2 C0 x (bidx (nrows x) i) (bidx (ncols x) j))
                                 (get2 C0 y (bidx (nrows y) i) (bidx (ncols y) j))))
      | _, _ => Raise InvalidArgumentError
      end
  | _, _ => Raise ValueError
  end.

(** [tf.math.real]. *)
Definition tf_math_real (a : option (Tensor C)) : result (Tensor R) :=
  match a with
  | Some x => Ok {| shape := shape x; data := map fst (data x) |}
  | None => Raise ValueError
  end.

(* ------------------------------------------------------------------ *)
(** ** Sparse tensors *)

(** A rank-2 [tf.sparse.SparseTensor]: the k-th row of [sp_indices] is the
    position of the k-th value. *)
Record SparseTensor : Type := mk_sparse
  { sp_indices : list (Z * Z);
    sp_values : list R;
    sp_dense_shape : Z * Z }.

Definition sp_entries (sp : SparseTensor) : list ((Z * Z) * R) :=
  combine (sp_indices sp) (sp_values sp).

(** Row-major order on positions. *)
Definition idx_leb (a b : Z * Z) : bool :=
  (fst a <? fst b)%Z || ((fst a =? fst b)%Z && (snd a <=? snd b)%Z).

Fixpoint insert_entry (e : (Z * Z) * R) (l : list ((Z * Z) * R))
  : list ((Z * Z) * R) :=
  match l with
  | [] => [e]
  | x :: l' =>
      if idx_leb (fst e) (fst x) then e :: l else x :: insert_entry e l'
  end.

Definition sort_entries (l : list ((Z * Z) * R)) : list ((Z * Z) * R) :=
  fold_right insert_entry [] l.

(** [tf.sparse.reorder]: the same entries in canonical row-major order. *)
Definition tf_sparse_reorder (sp : SparseTensor) : SparseTensor :=
  let es := sort_entries (sp_entries sp) in
  {| sp_indices := map fst es;
     sp_values := map snd es;
     sp_dense_shape := sp_dense_shape sp |}.

(** The dense matrix a sparse tensor stands for: the entry at (i, j) is the
    sum of the values stored at that position, zero when there is none. *)
Definition sp_get (sp : SparseTensor) (i j : nat) : R :=
  Rsum (map snd
          (filter (fun e => (fst (fst e) =? Z.of_nat i)%Z
                            && (snd (fst e) =? Z.of_nat j)%Z)
                  (sp_entries sp))).

(** [tf.sparse.sparse_dense_matmul(sp, b, adjoint_a, adjoint_b)].  (A dense
    shape that passed the assertions of [_generate_sketch_matrix] with at
    least one channel has a positive number of columns.) *)
Definition tf_sparse_sparse_dense_matmul
    (sp : SparseTensor) (b : Tensor R) (adjoint_a adjoint_b : bool)
  : result (Tensor R) :=
  let ar := Z.to_nat (fst (sp_dense_shape sp)) in
  let ac := Z.to_nat (snd (sp_dense_shape sp)) in
  let m := if adjoint_a then ac else ar in
  let ka := if adjoint_a then ar else ac in
  let kb := if adjoint_b then ncols b else nrows b in
  let n := if adjoint_b then nrows b else ncols b in
  if ka =? kb
  then Ok (tabulate2 m n
             (fun i j =>
                Rsum (map (fun k =>
                             ((if adjoint_a then sp_get sp k i else sp_get sp i k)
                              * (if adjoint_b then get2 0%R b j k
                                 else get2 0%R b k j))%R)
                          (seq 0 ka))))
  else Raise InvalidArgumentError.

(* ------------------------------------------------------------------ *)
(** ** The source functions *)

Definition _fft (bottom : Tensor C) (sequential : bool) : option (Tensor C) :=
  if sequential then None else Some (tf_signal_fft bottom).

Definition _ifft (bottom : Tensor C) (sequential : bool) : option (Tensor C) :=
  if sequential then None else Some (tf_signal_ifft bottom).

(** [output_dim] is the size of a tensor dimension, an int64: the dense
    shape handed to [tf.sparse.SparseTensor] is taken to fit (below 2^63). *)
Definition _generate_sketch_matrix
    (rand_h rand_s : ndarray Q) (output_dim : Z) : result SparseTensor :=
  let rand_h := astype_int64 rand_h in
  let rand_s := astype_float32 rand_s in
  rbind (py_assert ((ndim rand_h =? 1) && (ndim rand_s =? 1)
                    && (np_len rand_h =? np_len rand_s))) (fun _ =>
  rbind (py_assert (forallb (fun h => (0 <=? h)%Z) (nd_data rand_h)
                    && forallb (fun h => (h <? output_dim)%Z) (nd_data rand_h)))
        (fun _ =>
  let input_dim := np_len rand_h in
  let indices := combine (map Z.of_nat (seq 0 input_dim)) (nd_data rand_h) in
  Ok (tf_sparse_reorder
        {| sp_indices := indices;
           sp_values := nd_data rand_s;
           sp_dense_shape := (Z.of_nat input_dim, output_dim) |}))).

(** *** Process state *)

(** numpy's legacy global generator.  [seeded s] is the state that
    [np.random.seed(s)] installs, whatever the state before; [randint high n]
    is [np.random.randint(high, size=n)] as a function of the state. *)
Class NumpyRandom : Type :=
  { rng_state : Type;
    seeded : Z -> rng_state;
    randint : Z -> nat -> rng_state -> result (list Z) * rng_state }.

Section Pooling.

Context {RNG : NumpyRandom}.

Record World : Type := mk_world
  { np_random : rng_state;
    stdout : list (string * Tensor R) }.

Definition M (A : Type) : Type := World -> result A * World.

Definition ret {A} (a : A) : M A := fun w => (Ok a, w).

Definition bind {A B} (m : M A) (k : A -> M B) : M B :=
  fun w => match m w with
           | (Ok a, w') => k a w'
           | (Raise e, w') => (Raise e, w')
           end.

Definition lift {A} (r : result A) : M A := fun w => (r, w).

Notation "x <- m ;; k" := (bind m (fun x => k))
  (at level 61, m at next level, right associativity).

Definition np_random_seed (seed : Z) : M unit :=
  fun w =>
    if ((0 <=? seed)%Z && (seed <? 2 ^ 32)%Z)%bool
    then (Ok tt, {| np_random := seeded seed; stdout := stdout w |})
    else (Raise ValueError, w).

Definition np_random_randint (high : Z) (size : nat) : M (ndarray Z) :=
  fun w =>
    let (r, g) := randint high size (np_random w) in
    (rbind r (fun l => Ok (array1 l)),
     {| np_random := g; stdout := stdout w |}).

Definition print (label : string) (t : Tensor R) : M unit :=
  fun w => (Ok tt, {| np_random := np_random w;
                      stdout := stdout w ++ [(label, t)] |}).

(** An integer array seen as an array of numbers. *)
Definition of_int_array (a : ndarray Z) : ndarray Q :=
  {| nd_shape := nd_shape a; nd_data := map inject_Z (nd_data a) |}.

(** The optional arguments of [compact_bilinear_pooling_layer]. *)
Record Config : Type := mk_config
  { rand_h_1 : option (ndarray Q);
    rand_s_1 : option (ndarray Q);
    rand_h_2 : option (ndarray Q);
    rand_s_2 : option (ndarray Q);
    seed_h_1 : Z;
    seed_s_1 : Z;
    seed_h_2 : Z;
    seed_s_2 : Z;
    sequential : bool;
    compute_size : Z }.

Definition default_config : Config :=
  {| rand_h_1 := None; rand_s_1 := None; rand_h_2 := None; rand_s_2 := None;
     seed_h_1 := 1; seed_s_1 := 3; seed_h_2 := 5; seed_s_2 := 7;
     sequential := false; compute_size := 128 |}.

(** [rand_h] when the caller gave none. *)
Definition draw_rand_h (seed output_dim : Z) (input_dim : nat) : M (ndarray Q) :=
  _ <- np_random_seed seed ;;
  r <- np_random_randint output_dim input_dim ;;
  ret (of_int_array r).

(** [rand_s] when the caller gave none: [2 * randint(2) - 1]. *)
Definition draw_rand_s (seed : Z) (input_dim : nat) : M (ndarray Q) :=
  _ <- np_random_seed seed ;;
  r <- np_random_randint 2 input_dim ;;
  ret (of_int_array {| nd_shape := nd_shape r;
                       nd_data := map (fun z => (2 * z - 1)%Z) (nd_data r) |}).

Definition or_else (a : option (ndarray Q)) (m : M (ndarray Q)) : M (ndarray Q) :=
  match a with
  | Some x => ret x
  | None => m
  end.

Definition compact_bilinear_pooling_layer
    (bottom1 bottom2 : Tensor R) (output_dim : Z) (cfg : Config)
  : M (Tensor R) :=
  input_dim1 <- lift (last_dim bottom1) ;;
  input_dim2 <- lift (last_dim bottom2) ;;
  rand_h_1 <- or_else (rand_h_1 cfg)
                (draw_rand_h (seed_h_1 cfg) output_dim input_dim1) ;;
  rand_s_1 <- or_else (rand_s_1 cfg) (draw_rand_s (seed_s_1 cfg) input_dim1) ;;
  sparse_sketch_matrix1 <-
    lift (_generate_sketch_matrix rand_h_1 rand_s_1 output_dim) ;;
  rand_h_2 <- or_else (rand_h_2 cfg)
                (draw_rand_h (seed_h_2 cfg) output_dim input_dim2) ;;
  rand_s_2 <- or_else (rand_s_2 cfg) (draw_rand_s (seed_s_2 cfg) input_dim2) ;;
  sparse_sketch_matrix2 <-
    lift (_generate_sketch_matrix rand_h_2 rand_s_2 output_dim) ;;
  bottom1_flat <- lift (tf_reshape bottom1 [(-1)%Z; Z.of_nat input_dim1]) ;;
  bottom2_flat <- lift (tf_reshape bottom2 [(-1)%Z; Z.of_nat input_dim2]) ;;
  _ <- print "bottom1:" bottom1_flat ;;
  m1 <- lift (tf_sparse_sparse_dense_matmul
                sparse_sketch_matrix1 bottom1_flat true true) ;;
  let sketch1 := tf_transpose 0%R m1 in
  m2 <- lift (tf_sparse_sparse_dense_matmul
                sparse_sketch_matrix2 bottom2_flat true true) ;;
  let sketch2 := tf_transpose 0%R m2 in
  let fft1 := _fft (tf_complex sketch1 (tf_zeros_like sketch1))
                   (sequential cfg) in
  let fft2 := _fft (tf_complex sketch2 (tf_zeros_like sketch2))
                   (sequential cfg) in
  fft_product <- lift (tf_multiply fft1 fft2) ;;
  cbp_flat <- lift (tf_math_real (_ifft fft_product (sequential cfg))) ;;
  d1 <- lift (get_shape_at bottom1 1) ;;
  d2 <- lift (get_shape_at bottom1 2) ;;
  d3 <- lift (get_shape_at bottom1 3) ;;
  cbp <- lift (tf_reshape cbp_flat
                 [(-1)%Z; Z.of_nat d1; Z.of_nat d2; Z.of_nat d3]) ;;
  ret cbp.

(** The value a call returns (or the exception it raises) and the state it
    leaves behind. *)
Definition outcome {A} (m : M A) (w : World) : result A := fst (m w).
Definition world_after {A} (m : M A) (w : World) : World := snd (m w).

End Pooling.

(* ------------------------------------------------------------------ *)
(** ** Vocabulary of the statements *)

(** Stored entries whose row numbers strictly increase down the list. *)
Definition rows_increasing (l : list ((Z * Z) * R)) : Prop :=
  forall i j d, i < j -> j < length l ->
    (fst (fst (nth i l d)) < fst (fst (nth j l d)))%Z.

(** The triples (row, column, value) that the function lists before
    reordering. *)
Definition sketch_entries (a : nat) (h : list Z) (s : list R)
  : list ((Z * Z) * R) :=
  combine (combine (map Z.of_nat (seq a (length h))) h) s.

(** Strict row-major order on positions. *)
Definition idx_lt (a b : Z * Z) : Prop :=
  (fst a < fst b)%Z \/ (fst a = fst b /\ snd a < snd b)%Z.

(** The count sketch of the rows of [x]: entry (n, b) adds s[i] * x[n, i] over
    the channels i of bucket b. *)
Definition count_sketch (h : list Z) (s : list Q) (D : Z) (N : nat)
    (x : Tensor R) : Tensor R :=
  tabulate2 N (Z.to_nat D)
    (fun n b =>
       Rsum (map (fun i => (Q2R (nth i s 0%Q) * get2 0%R x n i)%R)
                 (filter (fun i => (nth i h 0 =? Z.of_nat b)%Z)
                         (seq 0 (length h))))).

(** Lines 118-129 on two sketches, for the shape of the first input. *)
Definition fuse (sequential : bool) (sk1 sk2 : Tensor R) (H W C1 : nat)
  : result (Tensor R) :=
  rbind (tf_multiply (_fft (tf_complex sk1 (tf_zeros_like sk1)) sequential)
                     (_fft (tf_complex sk2 (tf_zeros_like sk2)) sequential))
    (fun p =>
  rbind (tf_math_real (_ifft p sequential)) (fun flat =>
  tf_reshape flat [(-1)%Z; Z.of_nat H; Z.of_nat W; Z.of_nat C1])).

(** The transform of one real row. *)
Definition dft (n : nat) (row : nat -> R) (k : nat) : C :=
  Csum (map (fun j => Cmul (row j, 0%R) (omega n (j * k))) (seq 0 n)).

(** Entry (r, j) of the matrix that line 126 yields from sketches with entries
    [f1] and [f2] of [N1] and [N2] rows. *)
Definition pool_entry (n N1 N2 : nat) (f1 f2 : nat -> nat -> R) (r j : nat) : R :=
  fst (Cscal (/ INR n)
         (Csum (map (fun k => Cmul (Cmul (dft n (f1 (bidx N1 r)) k)
                                         (dft n (f2 (bidx N2 r)) k))
                                   (Cconj (omega n (j * k))))
                    (seq 0 n)))).

(** A configuration with all four sketch arrays supplied. *)
Definition with_sketches (h1 s1 h2 s2 : list Q) (sequential : bool) : Config :=
  {| rand_h_1 := Some (array1 h1); rand_s_1 := Some (array1 s1);
     rand_h_2 := Some (array1 h2); rand_s_2 := Some (array1 s2);
     seed_h_1 := 1; seed_s_1 := 3; seed_h_2 := 5; seed_s_2 := 7;
     sequential := sequential; compute_size := 128 |}.

(** A small linear congruential generator standing in for numpy's, to run
    calls that draw their sketches. *)
Definition lcg_next (g : Z) : Z := ((1103515245 * g + 12345) mod 2 ^ 31)%Z.

Fixpoint lcg_draw (high : Z) (n : nat) (g : Z) : list Z * Z :=
  match n with
  | 0 => ([], g)
  | S n' =>
      let g' := lcg_next g in
      let (l, g'') := lcg_draw high n' g' in
      ((g' mod high)%Z :: l, g'')
  end.

Definition lcg_random : NumpyRandom :=
  {| rng_state := Z;
     seeded := fun s => s;
     randint := fun high n g =>
       if (high <=? 0)%Z then (Raise ValueError, g)
       else let (l, g') := lcg_draw high n g in (Ok l, g') |}.

Definition lcg_world (g : Z) : @World lcg_random :=
  @mk_world lcg_random g [].

Definition ones (s : list nat) : Tensor R :=
  {| shape := s; data := repeat 1%R (numel s) |}.

Ltac step :=
  match goal with
  | |- context [match ?x with pair _ _ => _ end] =>
      destruct x as [[?|?] ?]; cbn [fst snd is_ok]; try reflexivity
  | |- context [match ?x with Ok _ => _ | Raise _ => _ end] =>
      destruct x as [?|?]; cbn [fst snd is_ok]; try reflexivity
  end.

(** A computation whose result does not depend on the state it starts in. *)
Definition insensitive {RNG : NumpyRandom} {A} (m : M A) : Prop :=
  forall w1 w2 : World, fst (m w1) = fst (m w2).

(** The generator state a returning call leaves: that of the last array it
    had to draw, or the state it found when all four arrays were supplied. *)
Definition generator_after {RNG : NumpyRandom} (cfg : Config) (output_dim : Z)
    (input_dim1 input_dim2 : nat) (g : rng_state) : rng_state :=
  match rand_s_2 cfg, rand_h_2 cfg, rand_s_1 cfg, rand_h_1 cfg with
  | None, _, _, _ => snd (randint 2 input_dim2 (seeded (seed_s_2 cfg)))
  | Some _, None, _, _ =>
      snd (randint output_dim input_dim2 (seeded (seed_h_2 cfg)))
  | Some _, Some _, None, _ =>
      snd (randint 2 input_dim1 (seeded (seed_s_1 cfg)))
  | Some _, Some _, Some _, None =>
      snd (randint output_dim input_dim1 (seeded (seed_h_1 cfg)))
  | Some _, Some _, Some _, Some _ => g
  end.

Ltac atomic x :=
  lazymatch x with
  | context [match _ with pair _ _ => _ end] => fail
  | context [match _ with Ok _ => _ | Raise _ => _ end] => fail
  | context [if _ then _ else _] => fail
  | _ => idtac
  end.

Ltac step_eq :=
  match goal with
  | |- context [match ?x with pair _ _ => _ end] =>
      atomic x; destruct x as [? ?] eqn:?
  | |- context [match ?x with Ok _ => _ | Raise _ => _ end] =>
      atomic x; destruct x as [?|?] eqn:?
  end; cbn [fst snd is_ok]; try reflexivity.

Ltac run_call :=
  repeat (cbn [fst snd np_random stdout rbind];
          match goal with
          | |- context [match ?x with pair _ _ => _ end] =>
              atomic x; destruct x as [? ?]
          | |- context [match ?x with Ok _ => _ | Raise _ => _ end] =>
              atomic x; destruct x as [?|?]
          | |- context [if ?b then _ else _] => atomic b; destruct b
          end);
  cbn [fst snd np_random stdout rbind]; try (intro; discriminate).

(** The tensor [a * x + b * y] of two tensors of one shape. *)
Definition lincomb (a : R) (x : Tensor R) (b : R) (y : Tensor R) : Tensor R :=
  {| shape := shape x;
     data := map (fun p => (a * fst p + b * snd p)%R)
                 (combine (data x) (data y)) |}.

(** The same combination of two results; an exception on either side is the
    result. *)
Definition lincomb_result (a : R) (rx : result (Tensor R))
    (b : R) (ry : result (Tensor R)) : result (Tensor R) :=
  match rx, ry with
  | Ok px, Ok py => Ok (lincomb a px b py)
  | Raise e, _ => Raise e
  | Ok _, Raise e => Raise e
  end.

Definition Clin (a : R) (x : C) (b : R) (y : C) : C :=
  Cadd (Cscal a x) (Cscal b y).

(** The complex number one. *)
Definition Cone : C := (1%R, 0%R).

(** Equations of complex numbers, component by component. *)
Ltac calg :=
  unfold Clin, Cadd, Cmul, Cscal, Cconj, C0, Cone;
  apply injective_projections; cbn [fst snd]; ring.

(** The circular convolution of two rows of length [n]: entry j adds
    u[p] * v[q] over the p, q with (p + q) mod n = j. *)
Definition circular_convolution (n : nat) (u v : nat -> R) (j : nat) : R :=
  Rsum (map (fun p =>
               Rsum (map (fun q => if (p + q) mod n =? j
                                   then (u p * v q)%R else 0%R)
                         (seq 0 n)))
            (seq 0 n)).

(** Entry (n, b) of the count sketch of the rows of [x]. *)
Definition sketch_entry (h : list Z) (s : list Q) (x : Tensor R) (n b : nat) : R :=
  Rsum (map (fun i => (Q2R (nth i s 0%Q) * get2 0%R x n i)%R)
            (filter (fun i => (nth i h 0 =? Z.of_nat b)%Z) (seq 0 (length h)))).

(** A 4-D input seen as its matrix of positions by channels. *)
Definition flat_rows (t : Tensor R) (N c : nat) : Tensor R :=
  {| shape := [N; c]; data := data t |}.

(** The configuration for the two streams taken in the other order. *)
Definition swap_streams (cfg : Config) : Config :=
  {| rand_h_1 := rand_h_2 cfg; rand_s_1 := rand_s_2 cfg;
     rand_h_2 := rand_h_1 cfg; rand_s_2 := rand_s_1 cfg;
     seed_h_1 := seed_h_2 cfg; seed_s_1 := seed_s_2 cfg;
     seed_h_2 := seed_h_1 cfg; seed_s_2 := seed_s_1 cfg;
     sequential := sequential cfg; compute_size := compute_size cfg |}.

(** What numpy documents of [randint(high, size=n)] for a positive bound: n
    integers in [0, high). *)
Definition randint_contract {RNG : NumpyRandom} : Prop :=
  forall (high : Z) (n : nat) (g : rng_state),
    (0 < high)%Z ->
    exists l g', randint high n g = (Ok l, g')
                 /\ length l = n
                 /\ Forall (fun z => (0 <= z < high)%Z) l.

(** The seeds [np.random.seed] accepts. *)
Definition valid_seed (s : Z) : Prop := (0 <= s < 2 ^ 32)%Z.

(* ------------------------------------------------------------------ *)
(** * Properties *)

(** ** Matrices given by a function of the position *)

Section Tabulate.

Context {A : Type}.

Lemma shape_tabulate2 r c (f : nat -> nat -> A) :
  shape (tabulate2 r c f) = [r; c].
Proof. reflexivity. Qed.

Lemma nrows_tabulate2 r c (f : nat -> nat -> A) : nrows (tabulate2 r c f) = r.
Proof. reflexivity. Qed.

Lemma ncols_tabulate2 r c (f : nat -> nat -> A) : ncols (tabulate2 r c f) = c.
Proof. reflexivity. Qed.

Lemma length_rows_from (f : nat -> nat -> A) c r a :
  length (flat_map (fun i => map (f i) (seq 0 c)) (seq a r)) = r * c.
Proof.
  revert a; induction r as [|r IH]; intro a; simpl; [reflexivity|].
  rewrite length_app, length_map, length_seq, IH. reflexivity.
Qed.

Lemma wf_tabulate2 r c (f : nat -> nat -> A) : wf_tensor (tabulate2 r c f).
Proof.
  unfold wf_tensor; simpl. rewrite length_rows_from. lia.
Qed.

Lemma nth_rows_from (d : A) (f : nat -> nat -> A) c r a i j :
  i < r -> j < c ->
  nth (i * c + j) (flat_map (fun i => map (f i) (seq 0 c)) (seq a r)) d
  = f (a + i) j.
Proof.
  revert a i; induction r as [|r IH]; intros a i Hi Hj; [lia|].
  simpl. destruct i as [|i].
  - simpl. rewrite app_nth1 by (rewrite length_map, length_seq; exact Hj).
    rewrite Nat.add_0_r.
    rewrite (nth_indep _ d (f a 0)) by (rewrite length_map, length_seq; exact Hj).
    rewrite map_nth, seq_nth by exact Hj. reflexivity.
  - rewrite app_nth2 by (rewrite length_map, length_seq; simpl; lia).
    rewrite length_map, length_seq.
    replace (S i * c + j - c) with (i * c + j) by (simpl; lia).
    rewrite IH by lia. f_equal; lia.
Qed.

Lemma get2_tabulate2 (d : A) r c (f : nat -> nat -> A) i j :
  i < r -> j < c -> get2 d (tabulate2 r c f) i j = f i j.
Proof.
  intros Hi Hj. unfold get2. rewrite ncols_tabulate2. simpl data.
  rewrite nth_rows_from by assumption. reflexivity.
Qed.

Lemma tabulate2_ext r c (f g : nat -> nat -> A) :
  (forall i j, i < r -> j < c -> f i j = g i j) ->
  tabulate2 r c f = tabulate2 r c g.
Proof.
  intro H. unfold tabulate2. f_equal.
  assert (E : forall a n, a + n <= r ->
            flat_map (fun i => map (f i) (seq 0 c)) (seq a n)
            = flat_map (fun i => map (g i) (seq 0 c)) (seq a n)).
  { intros a n; revert a; induction n as [|n IH]; intros a Ha; simpl;
      [reflexivity|].
    rewrite IH by lia. f_equal.
    apply map_ext_in. intros j Hj. apply in_seq in Hj. apply H; lia. }
  apply (E 0 r). lia.
Qed.

End Tabulate.

(** ** Reshaping *)

Lemma of_nat_neqb_m1 n : (Z.of_nat n =? -1)%Z = false.
Proof. apply Z.eqb_neq. lia. Qed.

Lemma of_nat_ltb_m1 n : (Z.of_nat n <? -1)%Z = false.
Proof. apply Z.ltb_ge. lia. Qed.

(** Reshaping never touches the elements, and raises nothing but
    [InvalidArgumentError]. *)
Lemma tf_reshape_data {A} (t t' : Tensor A) dims :
  tf_reshape t dims = Ok t' -> data t' = data t.
Proof.
  unfold tf_reshape.
  destruct (existsb _ dims); [discriminate|].
  destruct (count_occ Z.eq_dec dims (-1)%Z) as [|[|n]]; try discriminate.
  - destruct (_ =? _); [|discriminate]. intros E; inversion E; reflexivity.
  - destruct (known_size dims =? 0).
    + destruct (_ =? _); [|discriminate]. intros E; inversion E; reflexivity.
    + destruct (_ =? _); [|discriminate]. intros E; inversion E; reflexivity.
Qed.

(** The shape of the result is determined by the shape of the argument. *)
Lemma tf_reshape_same_shape {A B} (t : Tensor A) (u : Tensor B) dims :
  shape t = shape u ->
  match tf_reshape t dims, tf_reshape u dims with
  | Ok t', Ok u' => shape t' = shape u'
  | Raise e, Raise e' => e = e'
  | _, _ => False
  end.
Proof.
  intros E. unfold tf_reshape. rewrite E.
  destruct (existsb _ dims); [reflexivity|].
  destruct (count_occ Z.eq_dec dims (-1)%Z) as [|[|n]]; try reflexivity.
  - destruct (_ =? _); reflexivity.
  - destruct (known_size dims =? 0).
    + destruct (_ =? _); reflexivity.
    + destruct (_ =? _); reflexivity.
Qed.

(** [tf.reshape(t, [-1, c])] for a positive [c]. *)
Lemma tf_reshape_rows {A} (t : Tensor A) c :
  1 <= c ->
  tf_reshape t [(-1)%Z; Z.of_nat c] =
  if numel (shape t) mod c =? 0
  then Ok {| shape := [numel (shape t) / c; c]; data := data t |}
  else Raise InvalidArgumentError.
Proof.
  intros Hc. unfold tf_reshape, known_size, fill_dims.
  cbn [existsb fold_right map count_occ].
  rewrite of_nat_ltb_m1, of_nat_neqb_m1. cbn [orb Z.ltb Z.compare Z.eqb Pos.eqb].
  destruct (Z.eq_dec (Z.of_nat c) (-1)) as [E|_]; [lia|].
  destruct (Z.eq_dec (-1) (-1)) as [_|E]; [|congruence].
  rewrite Nat2Z.id, Nat.mul_1_r.
  destruct (c =? 0) eqn:E0; [apply Nat.eqb_eq in E0; lia|]. reflexivity.
Qed.

(** [tf.reshape(t, (-1, d1, d2, d3))]. *)
Lemma tf_reshape_4d {A} (t : Tensor A) d1 d2 d3 :
  tf_reshape t [(-1)%Z; Z.of_nat d1; Z.of_nat d2; Z.of_nat d3] =
  let k := d1 * (d2 * d3) in
  if k =? 0
  then if numel (shape t) =? 0
       then Ok {| shape := [positive_size (shape t) / positive_size [d1; d2; d3];
                            d1; d2; d3];
                  data := data t |}
       else Raise InvalidArgumentError
  else if numel (shape t) mod k =? 0
       then Ok {| shape := [numel (shape t) / k; d1; d2; d3]; data := data t |}
       else Raise InvalidArgumentError.
Proof.
  unfold tf_reshape, known_size, fill_dims.
  cbn [existsb fold_right map count_occ].
  rewrite !of_nat_ltb_m1, !of_nat_neqb_m1.
  cbn [orb Z.ltb Z.compare Z.eqb Pos.eqb].
  destruct (Z.eq_dec (Z.of_nat d1) (-1)) as [E|_]; [lia|].
  destruct (Z.eq_dec (Z.of_nat d2) (-1)) as [E|_]; [lia|].
  destruct (Z.eq_dec (Z.of_nat d3) (-1)) as [E|_]; [lia|].
  destruct (Z.eq_dec (-1) (-1)) as [_|E]; [|congruence].
  rewrite !Nat2Z.id, Nat.mul_1_r.
  change (Z.to_nat (-1)) with 0.
  change (positive_size [0; d1; d2; d3]) with (positive_size [d1; d2; d3]).
  reflexivity.
Qed.

(** With positive sizes the missing one is the quotient. *)
Lemma tf_reshape_4d_pos {A} (t : Tensor A) d1 d2 d3 :
  1 <= d1 -> 1 <= d2 -> 1 <= d3 ->
  tf_reshape t [(-1)%Z; Z.of_nat d1; Z.of_nat d2; Z.of_nat d3] =
  if numel (shape t) mod (d1 * (d2 * d3)) =? 0
  then Ok {| shape := [numel (shape t) / (d1 * (d2 * d3)); d1; d2; d3];
             data := data t |}
  else Raise InvalidArgumentError.
Proof.
  intros H1 H2 H3. rewrite tf_reshape_4d. cbv zeta.
  destruct (d1 * (d2 * d3) =? 0) eqn:E0; [|reflexivity].
  apply Nat.eqb_eq in E0. nia.
Qed.

(* ------------------------------------------------------------------ *)
(** ** The sketch matrix *)

Lemma Qtrunc_inject_Z z : Qtrunc (inject_Z z) = z.
Proof. unfold Qtrunc, inject_Z; simpl. apply Z.quot_1_r. Qed.

Lemma map_Qtrunc_inject_Z l : map Qtrunc (map inject_Z l) = l.
Proof.
  induction l as [|z l IH]; simpl; [reflexivity|].
  rewrite Qtrunc_inject_Z, IH. reflexivity.
Qed.

Lemma map_fst_combine {A B} (l : list A) (l' : list B) :
  length l = length l' -> map fst (combine l l') = l.
Proof.
  revert l'; induction l as [|a l IH]; intros [|b l'] E; simpl in *;
    try discriminate; [reflexivity|].
  rewrite IH by lia. reflexivity.
Qed.

Lemma map_snd_combine {A B} (l : list A) (l' : list B) :
  length l = length l' -> map snd (combine l l') = l'.
Proof.
  revert l'; induction l as [|a l IH]; intros [|b l'] E; simpl in *;
    try discriminate; [reflexivity|].
  rewrite IH by lia. reflexivity.
Qed.

Lemma rows_increasing_tail e l : rows_increasing (e :: l) -> rows_increasing l.
Proof.
  intros H i j d Hij Hj. apply (H (S i) (S j) d); simpl; lia.
Qed.

Lemma sort_entries_increasing l : rows_increasing l -> sort_entries l = l.
Proof.
  induction l as [|e l IH]; intro H; [reflexivity|].
  simpl. rewrite IH by (eapply rows_increasing_tail; eassumption).
  destruct l as [|x l]; [reflexivity|].
  simpl. unfold idx_leb.
  assert (Hlt : (fst (fst e) < fst (fst x))%Z).
  { apply (H 0 1 e); simpl; lia. }
  apply Z.ltb_lt in Hlt. rewrite Hlt. reflexivity.
Qed.

Lemma length_sketch_entries a h s :
  length h = length s -> length (sketch_entries a h s) = length h.
Proof.
  intro E. unfold sketch_entries.
  rewrite !length_combine, length_map, length_seq. lia.
Qed.

Lemma nth_sketch_entries a h s i d :
  length h = length s -> i < length h ->
  nth i (sketch_entries a h s) d
  = ((Z.of_nat (a + i), nth i h 0%Z), nth i s 0%R).
Proof.
  revert a s i; induction h as [|z h IH]; intros a s i E Hi; simpl in Hi;
    [lia|].
  destruct s as [|v s]; simpl in E; [discriminate|].
  destruct i as [|i].
  - simpl. rewrite Nat.add_0_r. reflexivity.
  - unfold sketch_entries in *. simpl.
    rewrite (IH (S a) s i) by lia. do 2 f_equal. f_equal. lia.
Qed.

Lemma rows_increasing_sketch_entries a h s :
  length h = length s -> rows_increasing (sketch_entries a h s).
Proof.
  intros E i j d Hij Hj. rewrite length_sketch_entries in Hj by exact E.
  rewrite !nth_sketch_entries by (assumption || lia). simpl. lia.
Qed.

Lemma forallb_range (D : Z) (l : list Z) :
  Forall (fun z => (0 <= z < D)%Z) l ->
  forallb (fun h => (0 <=? h)%Z) l && forallb (fun h => (h <? D)%Z) l = true.
Proof.
  intro H. apply andb_true_iff; split; apply forallb_forall; intros z Hz;
    rewrite Forall_forall in H; specialize (H z Hz).
  - apply Z.leb_le; lia.
  - apply Z.ltb_lt; lia.
Qed.

Lemma forallb_range_false (D : Z) (l : list Z) :
  Exists (fun z => (z < 0 \/ D <= z)%Z) l ->
  forallb (fun h => (0 <=? h)%Z) l && forallb (fun h => (h <? D)%Z) l = false.
Proof.
  intro H. apply Exists_exists in H. destruct H as [z [Hin Hz]].
  apply not_true_is_false. intro T. apply andb_true_iff in T.
  destruct T as [T1 T2]. rewrite forallb_forall in T1, T2.
  specialize (T1 z Hin). specialize (T2 z Hin).
  apply Z.leb_le in T1. apply Z.ltb_lt in T2. lia.
Qed.

(** What [_generate_sketch_matrix] returns on one-dimensional arrays of equal
    length whose truncated bucket indices are in range. *)
Lemma generate_sketch_matrix_ok (h s : list Q) (D : Z) :
  length h = length s ->
  Forall (fun z => (0 <= z < D)%Z) (map Qtrunc h) ->
  _generate_sketch_matrix (array1 h) (array1 s) D
  = Ok {| sp_indices :=
            combine (map Z.of_nat (seq 0 (length h))) (map Qtrunc h);
          sp_values := map Q2R s;
          sp_dense_shape := (Z.of_nat (length h), D) |}.
Proof.
  intros E Hr. unfold _generate_sketch_matrix.
  cbn [astype_int64 astype_float32 array1 ndim np_len nd_shape nd_data
       length hd].
  rewrite <- E, !Nat.eqb_refl. cbn [andb py_assert rbind].
  rewrite (forallb_range Hr). cbn [py_assert rbind].
  f_equal. unfold tf_sparse_reorder, sp_entries.
  cbn [sp_indices sp_values sp_dense_shape].
  pose proof (rows_increasing_sketch_entries 0 (map Qtrunc h) (map Q2R s)) as Hs.
  unfold sketch_entries in Hs. rewrite !length_map in Hs.
  rewrite sort_entries_increasing by (apply Hs; exact E).
  f_equal.
  - rewrite map_fst_combine; [reflexivity|].
    rewrite length_combine, !length_map, length_seq. lia.
  - rewrite map_snd_combine; [reflexivity|].
    rewrite length_combine, !length_map, length_seq. lia.
Qed.

Lemma filter_andb {A} (f g : A -> bool) l :
  filter (fun x => f x && g x) l = filter g (filter f l).
Proof.
  induction l as [|x l IH]; simpl; [reflexivity|].
  destruct (f x); simpl; [destruct (g x)|]; rewrite IH; reflexivity.
Qed.

(** Row [i] of the listed triples holds one triple, or none past the end. *)
Lemma filter_row_sketch_entries a h s i :
  length h = length s ->
  filter (fun e => (fst (fst e) =? Z.of_nat i)%Z) (sketch_entries a h s)
  = if (a <=? i) && (i <? a + length h)
    then [((Z.of_nat i, nth (i - a) h 0%Z), nth (i - a) s 0%R)]
    else [].
Proof.
  revert a s; induction h as [|z h IH]; intros a s E.
  - simpl. destruct (a <=? i) eqn:L; simpl; [|reflexivity].
    rewrite Nat.add_0_r.
    apply Nat.leb_le in L. destruct (i <? a) eqn:L2; [|reflexivity].
    apply Nat.ltb_lt in L2. lia.
  - destruct s as [|v s]; simpl in E; [discriminate|].
    change (sketch_entries a (z :: h) (v :: s))
      with (((Z.of_nat a, z), v) :: sketch_entries (S a) h s).
    cbn [filter fst snd]. rewrite IH by lia.
    destruct (Nat.eq_dec a i) as [->|Hne].
    + rewrite Z.eqb_refl.
      replace (S i <=? i) with false by (symmetry; apply Nat.leb_gt; lia).
      rewrite Nat.leb_refl.
      replace (i <? i + length (z :: h)) with true
        by (symmetry; apply Nat.ltb_lt; simpl; lia).
      rewrite Nat.sub_diag. reflexivity.
    + replace (Z.of_nat a =? Z.of_nat i)%Z with false
        by (symmetry; apply Z.eqb_neq; lia).
      destruct (S a <=? i) eqn:L1.
      * apply Nat.leb_le in L1.
        replace (a <=? i) with true by (symmetry; apply Nat.leb_le; lia).
        replace (i <? a + length (z :: h)) with (i <? S a + length h)
          by (simpl; f_equal; lia).
        replace (i - a) with (S (i - S a)) by lia. reflexivity.
      * apply Nat.leb_gt in L1. cbn [andb].
        replace (a <=? i) with false by (symmetry; apply Nat.leb_gt; lia).
        reflexivity.
Qed.

(** The dense matrix behind the listed triples. *)
Lemma sp_get_sketch (sp : SparseTensor) h s i j :
  length h = length s ->
  sp_entries sp = sketch_entries 0 h s ->
  sp_get sp i j
  = if (i <? length h) && (nth i h 0 =? Z.of_nat j)%Z
    then nth i s 0%R else 0%R.
Proof.
  intros E Hsp. unfold sp_get. rewrite Hsp, filter_andb.
  rewrite filter_row_sketch_entries by exact E.
  cbn [Nat.leb andb Nat.add]. rewrite Nat.sub_0_r.
  destruct (i <? length h); [|reflexivity].
  cbn [filter fst snd andb]. destruct (nth i h 0 =? Z.of_nat j)%Z; simpl;
    [|reflexivity].
  apply Rplus_0_r.
Qed.

Lemma Q2R_sign q :
  (q == 1)%Q \/ (q == - (1))%Q -> Q2R q = 1%R \/ Q2R q = (- 1)%R.
Proof.
  intros [H|H]; apply Qeq_eqR in H; rewrite H; [left|right];
    unfold Q2R; simpl; lra.
Qed.

Lemma nth_map_Q2R s i :
  i < length s -> nth i (map Q2R s) 0%R = Q2R (nth i s 0%Q).
Proof.
  intro Hi. rewrite (nth_indep _ 0%R (Q2R 0%Q)) by (rewrite length_map; exact Hi).
  apply map_nth.
Qed.

Lemma nth_row_numbers n i : i < n -> nth i (map Z.of_nat (seq 0 n)) 0%Z = Z.of_nat i.
Proof.
  intro Hi. change 0%Z with (Z.of_nat 0). rewrite map_nth, seq_nth by exact Hi.
  reflexivity.
Qed.

(** C8. From bucket indices in [0, output_dim) and signs +1/-1,
    [_generate_sketch_matrix] returns a sparse matrix with [input_dim] rows
    and [output_dim] columns whose k-th stored entry is at position
    (k, bucket_indices[k]) with value signs[k]: row i holds exactly one stored
    entry, that entry is +1 or -1, every other position of the row is zero,
    and the entries are listed in strict row-major order. *)
Theorem C8_sketch_matrix_one_nonzero_per_row
    (h : list Z) (s : list Q) (D : Z) :
  length h = length s ->
  Forall (fun z => (0 <= z < D)%Z) h ->
  Forall (fun q => (q == 1)%Q \/ (q == - (1))%Q) s ->
  exists sp,
    _generate_sketch_matrix (array1 (map inject_Z h)) (array1 s) D = Ok sp
    /\ sp_dense_shape sp = (Z.of_nat (length h), D)
    /\ length (sp_indices sp) = length h
    /\ length (sp_values sp) = length h
    /\ (forall i, i < length h ->
          nth i (sp_indices sp) (0, 0)%Z = (Z.of_nat i, nth i h 0%Z)
          /\ nth i (sp_values sp) 0%R = Q2R (nth i s 0%Q)
          /\ (Q2R (nth i s 0%Q) = 1%R \/ Q2R (nth i s 0%Q) = (- 1)%R)
          /\ filter (fun e => (fst (fst e) =? Z.of_nat i)%Z) (sp_entries sp)
             = [((Z.of_nat i, nth i h 0%Z), Q2R (nth i s 0%Q))]
          /\ forall j,
               sp_get sp i j
               = if (nth i h 0 =? Z.of_nat j)%Z then Q2R (nth i s 0%Q) else 0%R)
    /\ (forall i j, i < j -> j < length h ->
          idx_lt (nth i (sp_indices sp) (0, 0)%Z)
                 (nth j (sp_indices sp) (0, 0)%Z)).
Proof.
  intros E Hr Hs.
  assert (Hgen := @generate_sketch_matrix_ok (map inject_Z h) s D).
  rewrite length_map, map_Qtrunc_inject_Z in Hgen.
  specialize (Hgen E Hr).
  eexists; split; [exact Hgen|].
  set (sp := {| sp_indices := _ |}).
  assert (Hent : sp_entries sp = sketch_entries 0 h (map Q2R s)) by reflexivity.
  assert (Els : length h = length (map Q2R s)) by (rewrite length_map; exact E).
  assert (Hidx : forall i, i < length h ->
            nth i (sp_indices sp) (0, 0)%Z = (Z.of_nat i, nth i h 0%Z)).
  { intros i Hi. unfold sp; cbn [sp_indices].
    rewrite combine_nth by (rewrite length_map, length_seq; reflexivity).
    rewrite nth_row_numbers by exact Hi. reflexivity. }
  split; [reflexivity|].
  split; [unfold sp; cbn [sp_indices];
          rewrite length_combine, length_map, length_seq; lia|].
  split; [unfold sp; cbn [sp_values]; rewrite length_map; lia|].
  split.
  - intros i Hi.
    assert (Hv : nth i (map Q2R s) 0%R = Q2R (nth i s 0%Q))
      by (apply nth_map_Q2R; lia).
    split; [apply Hidx; exact Hi|].
    split; [exact Hv|].
    split.
    { apply Q2R_sign. rewrite Forall_forall in Hs. apply Hs.
      apply nth_In. lia. }
    split.
    + rewrite Hent, filter_row_sketch_entries by exact Els.
      cbn [Nat.leb andb Nat.add]. rewrite Nat.sub_0_r.
      replace (i <? length h) with true by (symmetry; apply Nat.ltb_lt; exact Hi).
      rewrite Hv. reflexivity.
    + intro j. rewrite (sp_get_sketch sp h (map Q2R s) i j Els Hent).
      replace (i <? length h) with true by (symmetry; apply Nat.ltb_lt; exact Hi).
      cbn [andb]. rewrite Hv. reflexivity.
  - intros i j Hij Hj. rewrite !Hidx by lia. left. simpl. lia.
Qed.

(** A concrete sketch: channels 0 and 1 go to buckets 1 and 0 with signs
    +1 and -1, in a two-column matrix. *)
Lemma C8_sketch_matrix_witness :
  exists sp,
    _generate_sketch_matrix (array1 (map inject_Z [1; 0]%Z))
      (array1 [1%Q; (- (1))%Q]) 2 = Ok sp
    /\ sp_dense_shape sp = (2, 2)%Z
    /\ sp_indices sp = [(0, 1); (1, 0)]%Z.
Proof.
  destruct (@C8_sketch_matrix_one_nonzero_per_row
              [1; 0]%Z [1%Q; (- (1))%Q] 2%Z) as [sp [Hgen [Hshape [Hlen [_ [Hrow _]]]]]].
  - reflexivity.
  - repeat constructor; lia.
  - constructor; [left; reflexivity|].
    constructor; [right; reflexivity|]. constructor.
  - exists sp. split; [exact Hgen|]. split; [exact Hshape|].
    destruct (sp_indices sp) as [|a [|b [|c l]]]; simpl in Hlen; try discriminate.
    destruct (Hrow 0 ltac:(simpl; lia)) as [H0 _].
    destruct (Hrow 1 ltac:(simpl; lia)) as [H1 _].
    simpl in H0, H1. rewrite H0, H1. reflexivity.
Defined.

(** ** What [_generate_sketch_matrix] checks *)

(** C7 (as stated) fails: a sign of 2 is neither +1 nor -1, and the matrix is
    built all the same, with 2 as its stored value. *)
Lemma C7_sign_two_is_accepted :
  ~ ((2 == 1)%Q \/ (2 == - (1))%Q)
  /\ _generate_sketch_matrix (array1 [0%Q]) (array1 [2%Q]) 1
     = Ok {| sp_indices := [(0, 0)%Z];
             sp_values := [Q2R 2];
             sp_dense_shape := (1, 1)%Z |}.
Proof.
  split.
  - intros [H|H]; unfold Qeq in H; simpl in H; discriminate.
  - reflexivity.
Qed.

(** C7 (amended). The function raises, by a failed assertion, whenever an
    array is not one-dimensional, the lengths differ, or a bucket index
    truncated to an integer lies outside [0, output_dim). *)
Theorem C7_rejects_bad_rank_length_or_bucket (h s : ndarray Q) (D : Z) :
  ndim h <> 1 \/ ndim s <> 1 \/ np_len h <> np_len s
  \/ Exists (fun q => (Qtrunc q < 0 \/ D <= Qtrunc q)%Z) (nd_data h) ->
  _generate_sketch_matrix h s D = Raise AssertionError.
Proof.
  unfold _generate_sketch_matrix, ndim, np_len, astype_int64, astype_float32.
  cbn [nd_shape nd_data].
  intro H. unfold ndim, np_len in H.
  destruct (length (nd_shape h) =? 1) eqn:E1; [|reflexivity].
  destruct (length (nd_shape s) =? 1) eqn:E2; [|reflexivity].
  destruct (hd 0 (nd_shape h) =? hd 0 (nd_shape s)) eqn:E3; [|reflexivity].
  apply Nat.eqb_eq in E1, E2, E3. cbn [andb py_assert rbind].
  destruct H as [H|[H|[H|H]]]; try contradiction.
  rewrite forallb_range_false; [reflexivity|].
  apply Exists_exists in H. destruct H as [q [Hin Hq]].
  apply Exists_exists. exists (Qtrunc q). split; [|exact Hq].
  apply in_map. exact Hin.
Qed.

(** A bucket index of 3 with two buckets is rejected, and so is a signs
    array longer than the bucket array. *)
Lemma C7_rejects_witness :
  _generate_sketch_matrix (array1 [3%Q]) (array1 [1%Q]) 2 = Raise AssertionError
  /\ _generate_sketch_matrix (array1 [0%Q]) (array1 [1%Q; 1%Q]) 2
     = Raise AssertionError.
Proof.
  split.
  - apply (@C7_rejects_bad_rank_length_or_bucket
             (array1 [3%Q]) (array1 [1%Q]) 2%Z).
    right; right; right. constructor. right. vm_compute. discriminate.
  - apply (@C7_rejects_bad_rank_length_or_bucket
             (array1 [0%Q]) (array1 [1%Q; 1%Q]) 2%Z).
    right; right; left. vm_compute. discriminate.
Defined.

(** C10. A bucket array holding the float 1.9 is not rejected: the cast to
    int64 turns it into 1 before the range assertions, and 1 is the column
    that is used.  Likewise -0.5 becomes the valid index 0, and a sign of 2.5
    is stored as it is.  In general the function sees its bucket array only
    through the truncated values. *)
Theorem C10_bucket_indices_truncated_before_checks :
  _generate_sketch_matrix (array1 [19 # 10]%Q) (array1 [1%Q]) 2
  = Ok {| sp_indices := [(0, 1)%Z];
          sp_values := [Q2R 1];
          sp_dense_shape := (1, 2)%Z |}
  /\ _generate_sketch_matrix (array1 [- (1 # 2)]%Q) (array1 [5 # 2]%Q) 1
     = Ok {| sp_indices := [(0, 0)%Z];
             sp_values := [Q2R (5 # 2)%Q];
             sp_dense_shape := (1, 1)%Z |}
  /\ forall h s D,
       _generate_sketch_matrix h s D
       = _generate_sketch_matrix
           {| nd_shape := nd_shape h;
              nd_data := map inject_Z (map Qtrunc (nd_data h)) |} s D.
Proof.
  split; [reflexivity|]. split; [reflexivity|].
  intros h s D. unfold _generate_sketch_matrix, astype_int64.
  cbn [nd_shape nd_data]. rewrite map_Qtrunc_inject_Z. reflexivity.
Qed.

(* ------------------------------------------------------------------ *)
(** ** The projection step *)

Lemma Rsum_select (p : nat -> bool) (a y : nat -> R) l :
  Rsum (map (fun k => ((if p k then a k else 0) * y k)%R) l)
  = Rsum (map (fun k => (a k * y k)%R) (filter p l)).
Proof.
  induction l as [|k l IH]; simpl; [reflexivity|].
  rewrite IH. destruct (p k); simpl; lra.
Qed.

Lemma get2_transpose {A} (d : A) (t : Tensor A) i j :
  i < ncols t -> j < nrows t -> get2 d (tf_transpose d t) i j = get2 d t j i.
Proof.
  intros Hi Hj. unfold tf_transpose. rewrite get2_tabulate2 by assumption.
  reflexivity.
Qed.

(** The product computed at lines 111-115, for a sparse matrix whose stored
    triples are (k, h[k], s[k]). *)
Lemma matmul_sketch (sp : SparseTensor) (x : Tensor R) h s N (D : Z) :
  length h = length s ->
  sp_entries sp = sketch_entries 0 h s ->
  sp_dense_shape sp = (Z.of_nat (length h), D) ->
  shape x = [N; length h] ->
  tf_sparse_sparse_dense_matmul sp x true true
  = Ok (tabulate2 (Z.to_nat D) N
          (fun b n =>
             Rsum (map (fun i => (nth i s 0 * get2 0 x n i)%R)
                       (filter (fun i => (nth i h 0 =? Z.of_nat b)%Z)
                               (seq 0 (length h)))))).
Proof.
  intros E Hent Hshape Hx. unfold tf_sparse_sparse_dense_matmul.
  rewrite Hshape. cbn [fst snd]. unfold ncols, nrows. rewrite Hx.
  cbn [nth]. rewrite Nat2Z.id, Nat.eqb_refl. f_equal.
  apply tabulate2_ext. intros b n _ _.
  rewrite <- Rsum_select. f_equal. apply map_ext_in. intros i Hi.
  apply in_seq in Hi. rewrite (sp_get_sketch sp h s i b E Hent).
  replace (i <? length h) with true by (symmetry; apply Nat.ltb_lt; lia).
  reflexivity.
Qed.

(* ------------------------------------------------------------------ *)
(** ** The pooling layer with caller-supplied sketches *)

Lemma numel4 B H W Cn : numel [B; H; W; Cn] = B * (H * W) * Cn.
Proof. unfold numel; simpl. lia. Qed.

Lemma flatten_rows {A} (t : Tensor A) B H W Cn :
  shape t = [B; H; W; Cn] -> 1 <= Cn ->
  tf_reshape t [(-1)%Z; Z.of_nat Cn]
  = Ok {| shape := [B * (H * W); Cn]; data := data t |}.
Proof.
  intros Hs Hc. rewrite tf_reshape_rows, Hs, numel4 by exact Hc.
  rewrite Nat.Div0.mod_mul, Nat.div_mul by lia. reflexivity.
Qed.

Lemma last_dim_4d {A} (t : Tensor A) B H W Cn :
  shape t = [B; H; W; Cn] -> last_dim t = Ok Cn.
Proof. intro Hs. unfold last_dim. rewrite Hs. reflexivity. Qed.

Lemma transpose_tabulate2 {A} (d : A) r c (f : nat -> nat -> A) :
  tf_transpose d (tabulate2 r c f) = tabulate2 c r (fun i j => f j i).
Proof.
  unfold tf_transpose. rewrite ncols_tabulate2, nrows_tabulate2.
  apply tabulate2_ext. intros i j Hi Hj. apply get2_tabulate2; assumption.
Qed.

Lemma tabulate_count_sketch h s D N x :
  length h = length s ->
  tabulate2 N (Z.to_nat D)
    (fun n b =>
       Rsum (map (fun i => (nth i (map Q2R s) 0 * get2 0 x n i)%R)
                 (filter (fun i => (nth i h 0 =? Z.of_nat b)%Z)
                         (seq 0 (length h)))))
  = count_sketch h s D N x.
Proof.
  intro E. apply tabulate2_ext. intros n b _ _. f_equal.
  apply map_ext_in. intros i Hi. apply filter_In in Hi.
  destruct Hi as [Hi _]. apply in_seq in Hi.
  rewrite nth_map_Q2R by lia. reflexivity.
Qed.

Section PoolingFacts.

Context {RNG : NumpyRandom}.

Variables (bottom1 bottom2 : Tensor R) (output_dim : Z) (cfg : Config).
Variables (B1 H1 W1 B2 H2 W2 : nat).
Variables (h1 h2 : list Z) (s1 s2 : list Q).

Hypothesis shape1 : shape bottom1 = [B1; H1; W1; length h1].
Hypothesis shape2 : shape bottom2 = [B2; H2; W2; length h2].
Hypothesis channels1 : 1 <= length h1.
Hypothesis channels2 : 1 <= length h2.
Hypothesis signs1 : length h1 = length s1.
Hypothesis signs2 : length h2 = length s2.
Hypothesis range1 : Forall (fun z => (0 <= z < output_dim)%Z) h1.
Hypothesis range2 : Forall (fun z => (0 <= z < output_dim)%Z) h2.
Hypothesis given_h1 : rand_h_1 cfg = Some (array1 (map inject_Z h1)).
Hypothesis given_s1 : rand_s_1 cfg = Some (array1 s1).
Hypothesis given_h2 : rand_h_2 cfg = Some (array1 (map inject_Z h2)).
Hypothesis given_s2 : rand_s_2 cfg = Some (array1 s2).

(** With all four arrays supplied, a call builds both sketch matrices,
    flattens, prints, projects and only then fuses; the generator is not
    touched. *)
Lemma pool_explicit_run (w : World) :
  compact_bilinear_pooling_layer bottom1 bottom2 output_dim cfg w
  = (fuse (sequential cfg)
       (count_sketch h1 s1 output_dim (B1 * (H1 * W1))
          {| shape := [B1 * (H1 * W1); length h1]; data := data bottom1 |})
       (count_sketch h2 s2 output_dim (B2 * (H2 * W2))
          {| shape := [B2 * (H2 * W2); length h2]; data := data bottom2 |})
       H1 W1 (length h1),
     {| np_random := np_random w;
        stdout := stdout w
                  ++ [("bottom1:"%string,
                       {| shape := [B1 * (H1 * W1); length h1];
                          data := data bottom1 |})] |}).
Proof.
  assert (G1 := @generate_sketch_matrix_ok (map inject_Z h1) s1 output_dim).
  assert (G2 := @generate_sketch_matrix_ok (map inject_Z h2) s2 output_dim).
  rewrite length_map, map_Qtrunc_inject_Z in G1, G2.
  specialize (G1 signs1 range1). specialize (G2 signs2 range2).
  assert (E1 : length h1 = length (map Q2R s1)) by (rewrite length_map; exact signs1).
  assert (E2 : length h2 = length (map Q2R s2)) by (rewrite length_map; exact signs2).
  unfold compact_bilinear_pooling_layer, bind, lift, or_else, ret, print.
  rewrite (last_dim_4d _ shape1), (last_dim_4d _ shape2).
  rewrite given_h1, given_s1, given_h2, given_s2, G1, G2.
  rewrite (flatten_rows _ shape1 channels1), (flatten_rows _ shape2 channels2).
  rewrite (@matmul_sketch _ _ h1 (map Q2R s1) (B1 * (H1 * W1)) output_dim E1)
    by reflexivity.
  rewrite (@matmul_sketch _ _ h2 (map Q2R s2) (B2 * (H2 * W2)) output_dim E2)
    by reflexivity.
  rewrite !transpose_tabulate2.
  unfold get_shape_at. rewrite shape1. cbn [nth_error].
  rewrite !tabulate_count_sketch by assumption.
  unfold fuse, rbind.
  destruct (tf_multiply _ _) as [p|e]; [|reflexivity].
  destruct (tf_math_real _) as [r|e]; [|reflexivity].
  destruct (tf_reshape _ _) as [t|e]; reflexivity.
Qed.

End PoolingFacts.

(** C3. In a call with valid supplied sketches, each input is flattened to a
    matrix x of shape [N, input_dim], and the projection step (lines 106-115:
    the sparse product with both operands transposed, then transposed back)
    turns it into an [N, output_dim] matrix whose entry (n, b) is the sum of
    s[i] * x[n, i] over the channels i with h[i] = b.  The call is the rest
    of the function (lines 118-129) run on these two matrices, after the one
    line it prints. *)
Theorem C3_projection_is_signed_scatter_add {RNG : NumpyRandom}
    (bottom1 bottom2 : Tensor R) (D : Z) (cfg : Config)
    (B1 H1 W1 B2 H2 W2 : nat)
    (h1 h2 : list Z) (s1 s2 : list Q) (w : World) :
  shape bottom1 = [B1; H1; W1; length h1] ->
  shape bottom2 = [B2; H2; W2; length h2] ->
  1 <= length h1 -> 1 <= length h2 ->
  length h1 = length s1 -> length h2 = length s2 ->
  Forall (fun z => (0 <= z < D)%Z) h1 ->
  Forall (fun z => (0 <= z < D)%Z) h2 ->
  rand_h_1 cfg = Some (array1 (map inject_Z h1)) ->
  rand_s_1 cfg = Some (array1 s1) ->
  rand_h_2 cfg = Some (array1 (map inject_Z h2)) ->
  rand_s_2 cfg = Some (array1 s2) ->
  exists x1 x2 sp1 sp2 m1 m2,
    tf_reshape bottom1 [(-1)%Z; Z.of_nat (length h1)] = Ok x1
    /\ tf_reshape bottom2 [(-1)%Z; Z.of_nat (length h2)] = Ok x2
    /\ shape x1 = [B1 * (H1 * W1); length h1]
    /\ shape x2 = [B2 * (H2 * W2); length h2]
    /\ _generate_sketch_matrix (array1 (map inject_Z h1)) (array1 s1) D = Ok sp1
    /\ _generate_sketch_matrix (array1 (map inject_Z h2)) (array1 s2) D = Ok sp2
    /\ tf_sparse_sparse_dense_matmul sp1 x1 true true = Ok m1
    /\ tf_sparse_sparse_dense_matmul sp2 x2 true true = Ok m2
    /\ compact_bilinear_pooling_layer bottom1 bottom2 D cfg w
       = (fuse (sequential cfg) (tf_transpose 0%R m1) (tf_transpose 0%R m2)
            H1 W1 (length h1),
          {| np_random := np_random w;
             stdout := stdout w ++ [("bottom1:"%string, x1)] |})
    /\ shape (tf_transpose 0%R m1) = [B1 * (H1 * W1); Z.to_nat D]
    /\ shape (tf_transpose 0%R m2) = [B2 * (H2 * W2); Z.to_nat D]
    /\ (forall n b, n < B1 * (H1 * W1) -> b < Z.to_nat D ->
          get2 0%R (tf_transpose 0%R m1) n b
          = Rsum (map (fun i => (Q2R (nth i s1 0%Q) * get2 0%R x1 n i)%R)
                      (filter (fun i => (nth i h1 0 =? Z.of_nat b)%Z)
                              (seq 0 (length h1)))))
    /\ (forall n b, n < B2 * (H2 * W2) -> b < Z.to_nat D ->
          get2 0%R (tf_transpose 0%R m2) n b
          = Rsum (map (fun i => (Q2R (nth i s2 0%Q) * get2 0%R x2 n i)%R)
                      (filter (fun i => (nth i h2 0 =? Z.of_nat b)%Z)
                              (seq 0 (length h2))))).
Proof.
  intros S1 S2 C1 C2 L1 L2 R1 R2 G1 G2 G3 G4.
  assert (Hg1 := @generate_sketch_matrix_ok (map inject_Z h1) s1 D).
  assert (Hg2 := @generate_sketch_matrix_ok (map inject_Z h2) s2 D).
  rewrite length_map, map_Qtrunc_inject_Z in Hg1, Hg2.
  specialize (Hg1 L1 R1). specialize (Hg2 L2 R2).
  assert (E1 : length h1 = length (map Q2R s1)) by (rewrite length_map; exact L1).
  assert (E2 : length h2 = length (map Q2R s2)) by (rewrite length_map; exact L2).
  exists {| shape := [B1 * (H1 * W1); length h1]; data := data bottom1 |}.
  exists {| shape := [B2 * (H2 * W2); length h2]; data := data bottom2 |}.
  eexists. eexists. eexists. eexists.
  split; [exact (flatten_rows _ S1 C1)|].
  split; [exact (flatten_rows _ S2 C2)|].
  split; [reflexivity|]. split; [reflexivity|].
  split; [exact Hg1|]. split; [exact Hg2|].
  split.
  { apply (@matmul_sketch _ _ h1 (map Q2R s1) (B1 * (H1 * W1)) D E1);
      reflexivity. }
  split.
  { apply (@matmul_sketch _ _ h2 (map Q2R s2) (B2 * (H2 * W2)) D E2);
      reflexivity. }
  split.
  { rewrite !transpose_tabulate2, !tabulate_count_sketch by assumption.
    exact (pool_explicit_run bottom1 bottom2 cfg S1 S2 C1 C2 L1 L2 R1 R2
             G1 G2 G3 G4 w). }
  rewrite !transpose_tabulate2, !tabulate_count_sketch by assumption.
  split; [reflexivity|]. split; [reflexivity|].
  split; intros n b Hn Hb; unfold count_sketch;
    rewrite get2_tabulate2 by assumption; reflexivity.
Qed.

(** One position with two channels that share bucket 0, signs +1 and -1:
    the single entry of the first sketch is x[0,0] - x[0,1]. *)
Lemma C3_projection_witness :
  exists x1 m1 m2,
    tf_reshape {| shape := [1; 1; 1; 2]; data := [5%R; 3%R] |} [(-1)%Z; 2%Z]
    = Ok x1
    /\ outcome (@compact_bilinear_pooling_layer lcg_random
                  {| shape := [1; 1; 1; 2]; data := [5%R; 3%R] |}
                  (ones [1; 1; 1; 1]) 1
                  (with_sketches [0%Q; 0%Q] [1%Q; (- (1))%Q] [0%Q] [1%Q] false))
               (lcg_world 0)
       = fuse false (tf_transpose 0%R m1) (tf_transpose 0%R m2) 1 1 2
    /\ shape (tf_transpose 0%R m1) = [1; 1]
    /\ get2 0%R (tf_transpose 0%R m1) 0 0 = 2%R.
Proof.
  destruct (@C3_projection_is_signed_scatter_add lcg_random
              {| shape := [1; 1; 1; 2]; data := [5%R; 3%R] |}
              (ones [1; 1; 1; 1]) 1%Z
              (with_sketches [0%Q; 0%Q] [1%Q; (- (1))%Q] [0%Q] [1%Q] false)
              1 1 1 1 1 1 [0; 0]%Z [0%Z] [1%Q; (- (1))%Q] [1%Q] (lcg_world 0)
              eq_refl eq_refl ltac:(simpl; lia) ltac:(simpl; lia)
              eq_refl eq_refl
              ltac:(repeat constructor; lia) ltac:(repeat constructor; lia)
              eq_refl eq_refl eq_refl eq_refl)
    as [x1 [x2 [sp1 [sp2 [m1 [m2 [Hx1 [_ [Hsx [_ [_ [_ [_ [_ [Hrun
         [Hs1 [_ [Hval _]]]]]]]]]]]]]]]]]].
  exists x1, m1, m2. split; [exact Hx1|].
  split; [unfold outcome; rewrite Hrun; reflexivity|].
  split; [exact Hs1|].
  rewrite (Hval 0 0) by (simpl; lia).
  cbv in Hx1. injection Hx1 as <-.
  unfold get2, Q2R; simpl. lra.
Defined.

(* ------------------------------------------------------------------ *)
(** ** The frequency-domain product, entry by entry *)

Lemma map_rows_from {A B} (g : A -> B) (f : nat -> nat -> A) c l :
  map g (flat_map (fun i => map (f i) (seq 0 c)) l)
  = flat_map (fun i => map (fun j => g (f i j)) (seq 0 c)) l.
Proof.
  induction l as [|i l IH]; simpl; [reflexivity|].
  rewrite map_app, map_map, IH. reflexivity.
Qed.

Lemma combine_zeros (l : list R) :
  combine l (map (fun _ => 0%R) l) = map (fun x => (x, 0%R)) l.
Proof.
  induction l as [|x l IH]; simpl; [reflexivity|]. rewrite IH. reflexivity.
Qed.

Lemma complex_tabulate2 r c (f : nat -> nat -> R) :
  tf_complex (tabulate2 r c f) (tf_zeros_like (tabulate2 r c f))
  = tabulate2 r c (fun i j => (f i j, 0%R)).
Proof.
  unfold tf_complex, tf_zeros_like, tabulate2. cbn [shape data].
  rewrite combine_zeros, map_rows_from. reflexivity.
Qed.

Lemma real_tabulate2 r c (f : nat -> nat -> C) :
  tf_math_real (Some (tabulate2 r c f))
  = Ok (tabulate2 r c (fun i j => fst (f i j))).
Proof.
  unfold tf_math_real, tabulate2. cbn [shape data].
  rewrite map_rows_from. reflexivity.
Qed.

Lemma spectrum_tabulate2 r c (f : nat -> nat -> R) :
  tf_signal_fft (tf_complex (tabulate2 r c f) (tf_zeros_like (tabulate2 r c f)))
  = tabulate2 r c (fun i k => dft c (f i) k).
Proof.
  rewrite complex_tabulate2. unfold tf_signal_fft.
  rewrite nrows_tabulate2, ncols_tabulate2.
  apply tabulate2_ext. intros i k Hi Hk. unfold dft. f_equal.
  apply map_ext_in. intros j Hj. apply in_seq in Hj.
  rewrite get2_tabulate2 by lia. reflexivity.
Qed.

Lemma bidx_lt n i : i < n -> bidx n i = i.
Proof.
  intro H. unfold bidx. destruct (n =? 1) eqn:E; [|reflexivity].
  apply Nat.eqb_eq in E. lia.
Qed.

Lemma bidx_broadcast N1 N2 N i :
  broadcast_dim N1 N2 = Some N -> i < N ->
  bidx N1 i < N1 /\ bidx N2 i < N2.
Proof.
  unfold broadcast_dim, bidx. intros Hb Hi.
  destruct (N1 =? N2) eqn:E12.
  - apply Nat.eqb_eq in E12. injection Hb as <-. subst N2.
    destruct (N1 =? 1) eqn:E1; [apply Nat.eqb_eq in E1|]; lia.
  - destruct (N1 =? 1) eqn:E1.
    + apply Nat.eqb_eq in E1. injection Hb as <-.
      destruct (N2 =? 1) eqn:E2; [apply Nat.eqb_eq in E2|]; lia.
    + destruct (N2 =? 1) eqn:E2; [|discriminate].
      apply Nat.eqb_eq in E2. injection Hb as <-. lia.
Qed.

(** Lines 118-129 on two sketches with the same number of columns. *)
Lemma fuse_batched N1 N2 n (f1 f2 : nat -> nat -> R) H W C1 :
  fuse false (tabulate2 N1 n f1) (tabulate2 N2 n f2) H W C1
  = match broadcast_dim N1 N2 with
    | Some N =>
        tf_reshape (tabulate2 N n (pool_entry n N1 N2 f1 f2))
          [(-1)%Z; Z.of_nat H; Z.of_nat W; Z.of_nat C1]
    | None => Raise InvalidArgumentError
    end.
Proof.
  unfold fuse, _fft, _ifft. rewrite !spectrum_tabulate2.
  unfold tf_multiply. rewrite !nrows_tabulate2, !ncols_tabulate2.
  replace (broadcast_dim n n) with (Some n)
    by (unfold broadcast_dim; rewrite Nat.eqb_refl; reflexivity).
  destruct (broadcast_dim N1 N2) as [N|] eqn:Hb; [|reflexivity].
  cbn [rbind]. unfold tf_signal_ifft.
  rewrite nrows_tabulate2, ncols_tabulate2, real_tabulate2. cbn [rbind].
  f_equal. apply tabulate2_ext. intros r j Hr Hj.
  unfold pool_entry. do 3 f_equal.
  apply map_ext_in. intros k Hk. apply in_seq in Hk.
  destruct (@bidx_broadcast N1 N2 N r Hb Hr) as [Hr1 Hr2].
  rewrite get2_tabulate2 by lia.
  rewrite (@bidx_lt n k) by lia.
  rewrite !get2_tabulate2 by lia. reflexivity.
Qed.

Lemma fuse_sequential sk1 sk2 H W C1 :
  fuse true sk1 sk2 H W C1 = Raise ValueError.
Proof. reflexivity. Qed.

(* ------------------------------------------------------------------ *)
(** ** Output shape, the sequential flag, mismatched inputs *)

Section Outcomes.

Context {RNG : NumpyRandom}.

(** X11. With [sequential=True] both [_fft] calls return [None], and the
    product of the two raises: no call returns, whatever the inputs and the
    rest of the configuration. *)
Lemma sequential_never_returns b1 b2 D cfg (w : World) :
  sequential cfg = true ->
  is_ok (outcome (compact_bilinear_pooling_layer b1 b2 D cfg) w) = false.
Proof.
  intro Hseq.
  unfold outcome, compact_bilinear_pooling_layer, bind, lift, print.
  rewrite Hseq. cbn [_fft tf_multiply].
  repeat step.
Qed.

End Outcomes.

Lemma broadcast_dim_none N1 N2 :
  N1 <> N2 -> N1 <> 1 -> N2 <> 1 -> broadcast_dim N1 N2 = None.
Proof.
  intros H12 H1 H2. unfold broadcast_dim.
  apply Nat.eqb_neq in H12, H1, H2. rewrite H12, H1, H2. reflexivity.
Qed.

(** The shape of what a batched call returns when both inputs have the same
    batch, height and width: the last dimension is the channel count of the
    first input, and the leading one is whatever makes the element count
    come out. *)
Lemma pool_returned_shape {RNG : NumpyRandom}
    (bottom1 bottom2 : Tensor R) (D : Z) (cfg : Config) (B H W : nat)
    (h1 h2 : list Z) (s1 s2 : list Q) (w : World) (t : Tensor R) :
  shape bottom1 = [B; H; W; length h1] ->
  shape bottom2 = [B; H; W; length h2] ->
  1 <= H -> 1 <= W ->
  1 <= length h1 -> 1 <= length h2 ->
  length h1 = length s1 -> length h2 = length s2 ->
  Forall (fun z => (0 <= z < D)%Z) h1 ->
  Forall (fun z => (0 <= z < D)%Z) h2 ->
  rand_h_1 cfg = Some (array1 (map inject_Z h1)) ->
  rand_s_1 cfg = Some (array1 s1) ->
  rand_h_2 cfg = Some (array1 (map inject_Z h2)) ->
  rand_s_2 cfg = Some (array1 s2) ->
  sequential cfg = false ->
  outcome (compact_bilinear_pooling_layer bottom1 bottom2 D cfg) w = Ok t ->
  shape t = [B * (H * W) * Z.to_nat D / (H * (W * length h1));
             H; W; length h1].
Proof.
  intros S1 S2 HH HW C1 C2 L1 L2 R1 R2 G1 G2 G3 G4 Hseq Hok.
  unfold outcome in Hok.
  rewrite (pool_explicit_run bottom1 bottom2 cfg S1 S2 C1 C2 L1 L2 R1 R2
             G1 G2 G3 G4 w) in Hok.
  cbn [fst] in Hok. rewrite Hseq in Hok. unfold count_sketch in Hok.
  rewrite fuse_batched in Hok.
  replace (broadcast_dim (B * (H * W)) (B * (H * W)))
    with (Some (B * (H * W))) in Hok
    by (unfold broadcast_dim; rewrite Nat.eqb_refl; reflexivity).
  rewrite tf_reshape_4d_pos in Hok by assumption.
  rewrite shape_tabulate2 in Hok.
  destruct (_ mod _ =? 0); [|discriminate].
  injection Hok as <-. cbn [shape]. unfold numel; simpl.
  rewrite Nat.mul_1_r. reflexivity.
Qed.

(** C1 (the code departs from it). One position, one channel per input,
    [output_dim = 2]: the claim gives the shape [1,1,1,2]; the call returns a
    tensor of shape [2,1,1,1], because the final reshape takes its last
    dimension from the first input and not from [output_dim].  With two
    channels and [output_dim = 1] the same reshape has no solution and the
    call raises. *)
Theorem C1_returned_shape_uses_input_channels
    (RNG : NumpyRandom) (w : World) :
  (exists t,
     outcome (compact_bilinear_pooling_layer
                (ones [1; 1; 1; 1]) (ones [1; 1; 1; 1]) 2
                (with_sketches [0%Q] [1%Q] [0%Q] [1%Q] false)) w = Ok t
     /\ shape t = [2; 1; 1; 1]
     /\ shape t <> [1; 1; 1; 2])
  /\ outcome (compact_bilinear_pooling_layer
                (ones [1; 1; 1; 2]) (ones [1; 1; 1; 1]) 1
                (with_sketches [0%Q; 0%Q] [1%Q; 1%Q] [0%Q] [1%Q] false)) w
     = Raise InvalidArgumentError.
Proof.
  split; [|reflexivity].
  eexists. split; [reflexivity|]. split; [reflexivity|].
  cbn [shape]. discriminate.
Qed.

(** C2 (the code departs from it). On the same valid inputs and sketches the
    batched call returns a tensor and the sequential call raises
    [ValueError]: the two are not equal. *)
Theorem C2_sequential_raises_where_batched_returns
    (RNG : NumpyRandom) (w : World) :
  outcome (compact_bilinear_pooling_layer
             (ones [1; 1; 1; 1]) (ones [1; 1; 1; 1]) 1
             (with_sketches [0%Q] [1%Q] [0%Q] [1%Q] true)) w
  = Raise ValueError
  /\ exists t,
       outcome (compact_bilinear_pooling_layer
                  (ones [1; 1; 1; 1]) (ones [1; 1; 1; 1]) 1
                  (with_sketches [0%Q] [1%Q] [0%Q] [1%Q] false)) w = Ok t
       /\ shape t = [1; 1; 1; 1].
Proof.
  split; [reflexivity|].
  eexists. split; reflexivity.
Qed.

Lemma matmul_adjoint_columns sp b m :
  tf_sparse_sparse_dense_matmul sp b true true = Ok m -> ncols m = nrows b.
Proof.
  unfold tf_sparse_sparse_dense_matmul.
  destruct (_ =? _); [|discriminate]. intro E. injection E as <-. reflexivity.
Qed.

(** Two projections with row counts that do not broadcast have no product. *)
Lemma product_of_unequal_rows sp1 sp2 f1 f2 m1 m2 seq :
  tf_sparse_sparse_dense_matmul sp1 f1 true true = Ok m1 ->
  tf_sparse_sparse_dense_matmul sp2 f2 true true = Ok m2 ->
  broadcast_dim (nrows f1) (nrows f2) = None ->
  is_ok (tf_multiply
           (_fft (tf_complex (tf_transpose 0%R m1)
                    (tf_zeros_like (tf_transpose 0%R m1))) seq)
           (_fft (tf_complex (tf_transpose 0%R m2)
                    (tf_zeros_like (tf_transpose 0%R m2))) seq)) = false.
Proof.
  intros E1 E2 Hb. destruct seq; [reflexivity|].
  apply matmul_adjoint_columns in E1, E2.
  unfold _fft, tf_multiply, tf_signal_fft. rewrite !nrows_tabulate2.
  replace (nrows (tf_complex (tf_transpose 0%R m1)
                    (tf_zeros_like (tf_transpose 0%R m1)))) with (nrows f1)
    by (rewrite <- E1; reflexivity).
  replace (nrows (tf_complex (tf_transpose 0%R m2)
                    (tf_zeros_like (tf_transpose 0%R m2)))) with (nrows f2)
    by (rewrite <- E2; reflexivity).
  rewrite Hb. reflexivity.
Qed.

(** X12. Whatever the configuration (sketches supplied or drawn, batched or
    sequential), a call on inputs whose position counts differ, neither
    being 1, does not return. *)
Lemma unequal_position_counts_never_return {RNG : NumpyRandom}
    (b1 b2 : Tensor R) (D : Z) (cfg : Config)
    (B1 H1 W1 C1 B2 H2 W2 C2 : nat) (w : World) :
  shape b1 = [B1; H1; W1; C1] -> shape b2 = [B2; H2; W2; C2] ->
  1 <= C1 -> 1 <= C2 ->
  B1 * (H1 * W1) <> B2 * (H2 * W2) ->
  B1 * (H1 * W1) <> 1 -> B2 * (H2 * W2) <> 1 ->
  is_ok (outcome (compact_bilinear_pooling_layer b1 b2 D cfg) w) = false.
Proof.
  intros S1 S2 P1 P2 N12 N1 N2.
  unfold outcome, compact_bilinear_pooling_layer, bind, lift, print.
  rewrite (last_dim_4d _ S1), (last_dim_4d _ S2).
  rewrite (flatten_rows _ S1 P1), (flatten_rows _ S2 P2).
  repeat step_eq.
  all: exfalso;
    match goal with
    | E1 : tf_sparse_sparse_dense_matmul _ _ true true = Ok _,
      E2 : tf_sparse_sparse_dense_matmul _ _ true true = Ok _,
      Ep : tf_multiply _ _ = Ok _ |- _ =>
        pose proof (@product_of_unequal_rows _ _ _ _ _ _ (sequential cfg)
                      E1 E2 (broadcast_dim_none N12 N1 N2)) as Hc;
        rewrite Ep in Hc; discriminate
    end.
Qed.




(* ------------------------------------------------------------------ *)
(** ** Determinism and effects on the process state *)

Section Effects.

Context {RNG : NumpyRandom}.

Lemma insensitive_ret {A} (a : A) : insensitive (ret a).
Proof. intros w1 w2. reflexivity. Qed.

Lemma insensitive_lift {A} (r : result A) : insensitive (lift r).
Proof. intros w1 w2. reflexivity. Qed.

Lemma insensitive_print label t : insensitive (print label t).
Proof. intros w1 w2. reflexivity. Qed.

Lemma insensitive_bind {A B} (m : M A) (k : A -> M B) :
  insensitive m -> (forall a, insensitive (k a)) -> insensitive (bind m k).
Proof.
  intros Hm Hk w1 w2. unfold bind. specialize (Hm w1 w2).
  destruct (m w1) as [r1 v1], (m w2) as [r2 v2]. cbn [fst] in Hm. subst r2.
  destruct r1 as [a|e]; [apply Hk|reflexivity].
Qed.

(** Reseeding first is what makes a draw independent of the earlier state. *)
Lemma insensitive_draw_rand_h seed D n : insensitive (draw_rand_h seed D n).
Proof.
  intros w1 w2. unfold draw_rand_h, bind, np_random_seed, np_random_randint, ret.
  destruct ((0 <=? seed)%Z && (seed <? 2 ^ 32)%Z); [|reflexivity].
  cbn [np_random]. destruct (randint D n (seeded seed)) as [[l|e] g];
    reflexivity.
Qed.

Lemma insensitive_draw_rand_s seed n : insensitive (draw_rand_s seed n).
Proof.
  intros w1 w2. unfold draw_rand_s, bind, np_random_seed, np_random_randint, ret.
  destruct ((0 <=? seed)%Z && (seed <? 2 ^ 32)%Z); [|reflexivity].
  cbn [np_random]. destruct (randint 2 n (seeded seed)) as [[l|e] g];
    reflexivity.
Qed.

Lemma insensitive_or_else a m : insensitive m -> insensitive (or_else a m).
Proof.
  intro Hm. destruct a as [x|]; [apply insensitive_ret|exact Hm].
Qed.

(** C4. The value a call returns (or the exception it raises) is the same
    from any two states of the process: whatever the global generator held
    before, and whatever ran earlier.  Each array that is drawn is drawn
    right after reseeding, so only the seeds matter. *)
Theorem C4_outcome_independent_of_prior_state
    (bottom1 bottom2 : Tensor R) (output_dim : Z) (cfg : Config)
    (w1 w2 : World) :
  outcome (compact_bilinear_pooling_layer bottom1 bottom2 output_dim cfg) w1
  = outcome (compact_bilinear_pooling_layer bottom1 bottom2 output_dim cfg) w2.
Proof.
  unfold outcome. revert w1 w2.
  change (insensitive
            (compact_bilinear_pooling_layer bottom1 bottom2 output_dim cfg)).
  unfold compact_bilinear_pooling_layer. cbv zeta.
  repeat first
    [ apply insensitive_lift
    | apply insensitive_ret
    | apply insensitive_print
    | apply insensitive_or_else
    | apply insensitive_draw_rand_h
    | apply insensitive_draw_rand_s
    | apply insensitive_bind; [|intro] ].
Qed.

End Effects.

(** C5 (as stated) fails: a call with the default configuration reseeds the
    shared generator, which it finds in state 0 and leaves in another state;
    it also writes to standard output. *)
Lemma C5_default_call_changes_generator_state :
  let m := @compact_bilinear_pooling_layer lcg_random
             (ones [1; 1; 1; 1]) (ones [1; 1; 1; 1]) 1 default_config in
  is_ok (outcome m (lcg_world 0)) = true
  /\ np_random (lcg_world 0) = 0%Z
  /\ np_random (world_after m (lcg_world 0)) = lcg_next 7
  /\ lcg_next 7 <> 0%Z
  /\ stdout (lcg_world 0) = []
  /\ stdout (world_after m (lcg_world 0))
     = [("bottom1:"%string, {| shape := [1; 1]; data := [1%R] |})].
Proof.
  cbv zeta. split; [reflexivity|]. split; [reflexivity|].
  split; [reflexivity|]. split; [vm_compute; discriminate|].
  split; reflexivity.
Qed.

(** C5 (amended). A call that returns leaves the shared generator in the
    state of the last sketch array it had to draw (reseed, then draw), which
    does not depend on the state before; with all four arrays supplied the
    generator is left as it was.  Its one other effect is the line printed
    for the flattened first input. *)
Theorem C5_state_left_by_a_returning_call {RNG : NumpyRandom}
    (bottom1 bottom2 : Tensor R) (D : Z) (cfg : Config) (w : World)
    (t : Tensor R) (C1 C2 : nat) :
  last_dim bottom1 = Ok C1 ->
  last_dim bottom2 = Ok C2 ->
  outcome (compact_bilinear_pooling_layer bottom1 bottom2 D cfg) w = Ok t ->
  np_random (world_after (compact_bilinear_pooling_layer bottom1 bottom2 D cfg) w)
  = generator_after cfg D C1 C2 (np_random w)
  /\ exists flat,
       tf_reshape bottom1 [(-1)%Z; Z.of_nat C1] = Ok flat
       /\ stdout (world_after
                    (compact_bilinear_pooling_layer bottom1 bottom2 D cfg) w)
          = stdout w ++ [("bottom1:"%string, flat)].
Proof.
  intros L1 L2. unfold outcome, world_after, compact_bilinear_pooling_layer.
  unfold bind, lift, print, ret, or_else, draw_rand_h, draw_rand_s, bind, ret,
    np_random_seed, np_random_randint, generator_after.
  rewrite L1, L2.
  destruct (tf_reshape bottom1 [(-1)%Z; Z.of_nat C1]) as [flat|e] eqn:Hflat;
    destruct (rand_h_1 cfg), (rand_s_1 cfg), (rand_h_2 cfg), (rand_s_2 cfg);
    run_call;
    intros _; (split; [reflexivity|eexists; split; reflexivity]).
Qed.

(** The default call on one pixel: the generator ends in the state reached
    from seed 7; a call with supplied sketches leaves state 0 as it is. *)
Lemma C5_state_left_witness :
  np_random (world_after
               (@compact_bilinear_pooling_layer lcg_random
                  (ones [1; 1; 1; 1]) (ones [1; 1; 1; 1]) 1 default_config)
               (lcg_world 0))
  = lcg_next 7
  /\ np_random (world_after
                  (@compact_bilinear_pooling_layer lcg_random
                     (ones [1; 1; 1; 1]) (ones [1; 1; 1; 1]) 1
                     (with_sketches [0%Q] [1%Q] [0%Q] [1%Q] false))
                  (lcg_world 0))
     = 0%Z.
Proof.
  split.
  - edestruct (@C5_state_left_by_a_returning_call lcg_random
                 (ones [1; 1; 1; 1]) (ones [1; 1; 1; 1]) 1%Z default_config
                 (lcg_world 0)) as [Hg _];
      [reflexivity | reflexivity | reflexivity | exact Hg].
  - edestruct (@C5_state_left_by_a_returning_call lcg_random
                 (ones [1; 1; 1; 1]) (ones [1; 1; 1; 1]) 1%Z
                 (with_sketches [0%Q] [1%Q] [0%Q] [1%Q] false)
                 (lcg_world 0)) as [Hg _];
      [reflexivity | reflexivity | reflexivity | exact Hg].
Defined.

(* ------------------------------------------------------------------ *)
(** ** Linearity in the first stream *)

Lemma Clin_embed a u b v :
  ((a * u + b * v)%R, 0%R) = Clin a (u, 0%R) b (v, 0%R).
Proof. unfold Clin, Cadd, Cscal; simpl. f_equal; ring. Qed.

Lemma Cmul_Clin_l a x b y z :
  Cmul (Clin a x b y) z = Clin a (Cmul x z) b (Cmul y z).
Proof.
  destruct x, y, z. unfold Clin, Cadd, Cscal, Cmul; simpl. f_equal; ring.
Qed.

Lemma Cscal_Clin c a x b y :
  Cscal c (Clin a x b y) = Clin a (Cscal c x) b (Cscal c y).
Proof.
  destruct x, y. unfold Clin, Cadd, Cscal; simpl. f_equal; ring.
Qed.

Lemma fst_Clin a x b y : fst (Clin a x b y) = (a * fst x + b * fst y)%R.
Proof. reflexivity. Qed.

Lemma Csum_Clin {A} a b (u v : A -> C) l :
  Csum (map (fun k => Clin a (u k) b (v k)) l)
  = Clin a (Csum (map u l)) b (Csum (map v l)).
Proof.
  induction l as [|k l IH]; simpl.
  - unfold Clin, Cadd, Cscal, C0; simpl. f_equal; ring.
  - rewrite IH. destruct (u k), (v k), (Csum (map u l)), (Csum (map v l)).
    unfold Clin, Cadd, Cscal; simpl. f_equal; ring.
Qed.

Lemma Rsum_lin {A} a b (c u v : A -> R) l :
  Rsum (map (fun i => (c i * (a * u i + b * v i))%R) l)
  = (a * Rsum (map (fun i => (c i * u i)%R) l)
     + b * Rsum (map (fun i => (c i * v i)%R) l))%R.
Proof.
  induction l as [|i l IH]; simpl; [ring|]. rewrite IH. ring.
Qed.

Lemma dft_linear n a b (u v : nat -> R) k :
  dft n (fun j => (a * u j + b * v j)%R) k = Clin a (dft n u k) b (dft n v k).
Proof.
  unfold dft. rewrite <- Csum_Clin. f_equal. apply map_ext. intro j.
  rewrite Clin_embed. apply Cmul_Clin_l.
Qed.

Lemma pool_entry_linear n N1 N2 a b (f g f2 : nat -> nat -> R) r j :
  pool_entry n N1 N2 (fun r j => (a * f r j + b * g r j)%R) f2 r j
  = (a * pool_entry n N1 N2 f f2 r j + b * pool_entry n N1 N2 g f2 r j)%R.
Proof.
  unfold pool_entry. rewrite <- fst_Clin, <- Cscal_Clin, <- Csum_Clin.
  do 3 f_equal. apply map_ext. intro k.
  rewrite dft_linear, !Cmul_Clin_l. reflexivity.
Qed.

Lemma pool_entry_ext n N1 N2 (f g f2 : nat -> nat -> R) r j :
  (forall r j, f r j = g r j) ->
  pool_entry n N1 N2 f f2 r j = pool_entry n N1 N2 g f2 r j.
Proof.
  intro E. unfold pool_entry. do 3 f_equal. apply map_ext. intro k.
  do 2 f_equal. unfold dft. f_equal. apply map_ext. intro i.
  rewrite E. reflexivity.
Qed.

Lemma nth_lincomb a b (dx dy : list R) k :
  length dx = length dy ->
  nth k (map (fun p => (a * fst p + b * snd p)%R) (combine dx dy)) 0%R
  = (a * nth k dx 0 + b * nth k dy 0)%R.
Proof.
  revert dy k; induction dx as [|u dx IH]; intros [|v dy] k E; simpl in E;
    try discriminate.
  - destruct k; simpl; ring.
  - destruct k as [|k]; simpl; [reflexivity|]. apply IH. lia.
Qed.

Lemma lincomb_rows a b (f g : nat -> nat -> R) c l :
  map (fun p => (a * fst p + b * snd p)%R)
      (combine (flat_map (fun i => map (f i) (seq 0 c)) l)
               (flat_map (fun i => map (g i) (seq 0 c)) l))
  = flat_map (fun i => map (fun j => (a * f i j + b * g i j)%R) (seq 0 c)) l.
Proof.
  induction l as [|i l IH]; simpl; [reflexivity|].
  rewrite <- IH. clear IH.
  generalize (flat_map (fun i => map (f i) (seq 0 c)) l) as tx.
  generalize (flat_map (fun i => map (g i) (seq 0 c)) l) as ty.
  generalize (seq 0 c) as js.
  induction js as [|j js IHj]; intros ty tx; simpl; [reflexivity|].
  rewrite IHj. reflexivity.
Qed.

Lemma lincomb_tabulate2 a b r c (f g : nat -> nat -> R) s :
  lincomb a {| shape := s; data := data (tabulate2 r c f) |}
          b {| shape := s; data := data (tabulate2 r c g) |}
  = {| shape := s;
       data := data (tabulate2 r c (fun i j => (a * f i j + b * g i j)%R)) |}.
Proof.
  unfold lincomb, tabulate2. cbn [shape data]. rewrite lincomb_rows.
  reflexivity.
Qed.

Lemma count_sketch_entry_linear a b (x y : Tensor R) (h : list Z) (s : list Q)
    (sh : list nat) n bk :
  length (data x) = length (data y) ->
  Rsum (map (fun i =>
               (Q2R (nth i s 0%Q)
                * get2 0 {| shape := sh; data := data (lincomb a x b y) |} n i)%R)
            (filter (fun i => (nth i h 0 =? Z.of_nat bk)%Z) (seq 0 (length h))))
  = (a * Rsum (map (fun i =>
                      (Q2R (nth i s 0%Q)
                       * get2 0 {| shape := sh; data := data x |} n i)%R)
                   (filter (fun i => (nth i h 0 =? Z.of_nat bk)%Z)
                           (seq 0 (length h))))
     + b * Rsum (map (fun i =>
                        (Q2R (nth i s 0%Q)
                         * get2 0 {| shape := sh; data := data y |} n i)%R)
                     (filter (fun i => (nth i h 0 =? Z.of_nat bk)%Z)
                             (seq 0 (length h)))))%R.
Proof.
  intro E. rewrite <- Rsum_lin. f_equal. apply map_ext. intro i.
  unfold get2, ncols, lincomb. cbn [shape data].
  rewrite nth_lincomb by exact E. reflexivity.
Qed.

(** C9. With the second stream and the sketches fixed, pooling a * x + b * y
    gives a times the pooling of x plus b times the pooling of y (over the
    reals, which stand for the floating-point values); when the calls raise,
    all three raise the same exception. *)
Theorem C9_pooling_linear_in_first_stream {RNG : NumpyRandom}
    (x y stream2 : Tensor R) (a b : R) (D : Z) (cfg : Config) (B H W : nat)
    (h1 h2 : list Z) (s1 s2 : list Q) (w : World) :
  shape x = [B; H; W; length h1] ->
  shape y = [B; H; W; length h1] ->
  wf_tensor x -> wf_tensor y ->
  shape stream2 = [B; H; W; length h2] ->
  1 <= length h1 -> 1 <= length h2 ->
  length h1 = length s1 -> length h2 = length s2 ->
  Forall (fun z => (0 <= z < D)%Z) h1 ->
  Forall (fun z => (0 <= z < D)%Z) h2 ->
  rand_h_1 cfg = Some (array1 (map inject_Z h1)) ->
  rand_s_1 cfg = Some (array1 s1) ->
  rand_h_2 cfg = Some (array1 (map inject_Z h2)) ->
  rand_s_2 cfg = Some (array1 s2) ->
  outcome (compact_bilinear_pooling_layer (lincomb a x b y) stream2 D cfg) w
  = lincomb_result
      a (outcome (compact_bilinear_pooling_layer x stream2 D cfg) w)
      b (outcome (compact_bilinear_pooling_layer y stream2 D cfg) w).
Proof.
  intros Sx Sy Wx Wy S2 C1 C2 L1 L2 R1 R2 G1 G2 G3 G4.
  assert (Sxy : shape (lincomb a x b y) = [B; H; W; length h1]) by exact Sx.
  assert (Exy : length (data x) = length (data y)).
  { unfold wf_tensor in Wx, Wy. rewrite Wx, Wy, Sx, Sy. reflexivity. }
  unfold outcome.
  rewrite (pool_explicit_run (lincomb a x b y) stream2 cfg Sxy S2 C1 C2 L1 L2
             R1 R2 G1 G2 G3 G4 w).
  rewrite (pool_explicit_run x stream2 cfg Sx S2 C1 C2 L1 L2 R1 R2
             G1 G2 G3 G4 w).
  rewrite (pool_explicit_run y stream2 cfg Sy S2 C1 C2 L1 L2 R1 R2
             G1 G2 G3 G4 w).
  cbn [fst]. destruct (sequential cfg); [reflexivity|].
  unfold count_sketch. rewrite !fuse_batched.
  replace (broadcast_dim (B * (H * W)) (B * (H * W)))
    with (Some (B * (H * W)))
    by (unfold broadcast_dim; rewrite Nat.eqb_refl; reflexivity).
  rewrite !tf_reshape_4d. cbv zeta. rewrite !shape_tabulate2.
  destruct (H * (W * length h1) =? 0);
    [destruct (numel _ =? 0); [|reflexivity]
    |destruct (_ mod _ =? 0); [|reflexivity]];
    (unfold lincomb_result; rewrite lincomb_tabulate2; do 2 f_equal;
     apply (f_equal (@data R)); apply tabulate2_ext; intros r j _ _;
     rewrite <- pool_entry_linear; apply pool_entry_ext; intros n bk;
     apply count_sketch_entry_linear; exact Exy).
Qed.

(** One pixel, one channel, one bucket: pooling 2 * x + 5 * y against a
    fixed second stream is 2 * pool(x) + 5 * pool(y), and the calls return. *)
Lemma C9_pooling_linear_witness :
  let x := {| shape := [1; 1; 1; 1]; data := [2%R] |} in
  let y := {| shape := [1; 1; 1; 1]; data := [3%R] |} in
  let cfg := with_sketches [0%Q] [1%Q] [0%Q] [1%Q] false in
  let pool := fun t =>
    outcome (@compact_bilinear_pooling_layer lcg_random t
               (ones [1; 1; 1; 1]) 1 cfg) (lcg_world 0) in
  is_ok (pool x) = true
  /\ is_ok (pool y) = true
  /\ pool (lincomb 2 x 5 y) = lincomb_result 2 (pool x) 5 (pool y).
Proof.
  cbv zeta. split; [reflexivity|]. split; [reflexivity|].
  apply (@C9_pooling_linear_in_first_stream lcg_random
           {| shape := [1; 1; 1; 1]; data := [2%R] |}
           {| shape := [1; 1; 1; 1]; data := [3%R] |}
           (ones [1; 1; 1; 1]) 2%R 5%R 1%Z
           (with_sketches [0%Q] [1%Q] [0%Q] [1%Q] false)
           1 1 1 [0%Z] [0%Z] [1%Q] [1%Q] (lcg_world 0));
    try reflexivity; try (simpl; lia); try (repeat constructor; lia).
Defined.

(* ------------------------------------------------------------------ *)
(** * Further properties of the code *)

(* ------------------------------------------------------------------ *)
(** ** Roots of unity and the convolution theorem *)

Lemma omega_add n a b : omega n (a + b) = Cmul (omega n a) (omega n b).
Proof.
  unfold omega, Cmul. cbn [fst snd]. rewrite plus_INR.
  replace (2 * PI * (INR a + INR b) / INR n)%R
    with (2 * PI * INR a / INR n + 2 * PI * INR b / INR n)%R
    by (unfold Rdiv; ring).
  rewrite cos_plus, sin_plus. f_equal; ring.
Qed.

Lemma omega_period n k : 0 < n -> omega n (n * k) = Cone.
Proof.
  intro Hn. unfold omega, Cone. rewrite mult_INR.
  replace (2 * PI * (INR n * INR k) / INR n)%R with (0 + 2 * INR k * PI)%R
    by (field; apply not_0_INR; lia).
  rewrite cos_period, sin_period, cos_0, sin_0. f_equal. ring.
Qed.

Lemma omega_mod n m : 0 < n -> omega n m = omega n (m mod n).
Proof.
  intro Hn. rewrite (Nat.div_mod_eq m n) at 1.
  rewrite omega_add, omega_period by exact Hn. calg.
Qed.

Lemma omega_neq_1 n m : 0 < n -> m mod n <> 0 -> omega n m <> Cone.
Proof.
  intros Hn Hm E. rewrite omega_mod in E by exact Hn.
  assert (Hr : m mod n < n) by (apply Nat.mod_upper_bound; lia).
  set (r := m mod n) in *. unfold omega, Cone in E.
  injection E as Ec Es.
  assert (Hpos : (0 < INR n)%R) by (apply lt_0_INR; exact Hn).
  assert (Hrpos : (0 < INR r)%R) by (apply lt_0_INR; lia).
  assert (Hrn : (INR r < INR n)%R) by (apply lt_INR; exact Hr).
  pose proof PI_RGT_0 as Hpi.
  set (x := (2 * PI * INR r / INR n)%R) in *.
  assert (Hx0 : (0 < x)%R).
  { unfold x. apply Rdiv_lt_0_compat; [|exact Hpos].
    apply Rmult_lt_0_compat; lra. }
  assert (Hx2 : (x < 2 * PI)%R).
  { unfold x. apply (Rmult_lt_reg_r (INR n)); [exact Hpos|].
    unfold Rdiv. rewrite Rmult_assoc, Rinv_l, Rmult_1_r by lra.
    apply Rmult_lt_compat_l; lra. }
  assert (Hs : sin x = 0%R) by lra.
  destruct (sin_eq_O_2PI_0 x) as [H|[H|H]]; try lra.
  rewrite H, cos_PI in Ec. lra.
Qed.

Lemma Csum_app l1 l2 : Csum (l1 ++ l2) = Cadd (Csum l1) (Csum l2).
Proof.
  induction l1 as [|x l1 IH]; simpl; [calg|]. rewrite IH. calg.
Qed.

Lemma Csum_ones {A} (l : list A) :
  Csum (map (fun _ => Cone) l) = (INR (length l), 0%R).
Proof.
  induction l as [|x l IH]; [reflexivity|].
  cbn [map Csum fold_right length]. change (fold_right Cadd C0 (map (fun _ => Cone) l))
    with (Csum (map (fun _ : A => Cone) l)). rewrite IH, S_INR. calg.
Qed.

Lemma geometric_step n m N :
  Cadd Cone (Cmul (omega n m) (Csum (map (fun k => omega n (m * k)) (seq 0 N))))
  = Cadd (Csum (map (fun k => omega n (m * k)) (seq 0 N))) (omega n (m * N)).
Proof.
  induction N as [|N IH].
  - simpl. rewrite Nat.mul_0_r. unfold omega. cbn [INR].
    replace (2 * PI * 0 / INR n)%R with 0%R by (unfold Rdiv; ring).
    rewrite cos_0, sin_0. calg.
  - rewrite seq_S, map_app, Csum_app. cbn [map Nat.add Csum fold_right].
    replace (m * S N) with (m + m * N) by lia. rewrite omega_add.
    set (S0 := Csum (map (fun k => omega n (m * k)) (seq 0 N))) in *.
    set (z := omega n m) in *. set (zN := omega n (m * N)) in *.
    transitivity (Cadd (Cadd Cone (Cmul z S0)) (Cmul z zN)); [calg|].
    rewrite IH. calg.
Qed.

Lemma fixed_point_zero (z s : C) : z <> Cone -> Cmul z s = s -> s = C0.
Proof.
  destruct z as [c d], s as [u v]. unfold Cmul, Cone, C0. cbn [fst snd].
  intros Hz E. injection E as E1 E2.
  assert (Hn : ((c - 1) * (c - 1) + d * d <> 0)%R).
  { intro H0. apply Hz.
    destruct (Rplus_sqr_eq_0 (c - 1) d H0) as [Hc Hd].
    f_equal; lra. }
  assert (Hu : (((c - 1) * (c - 1) + d * d) * u = 0)%R).
  { replace (((c - 1) * (c - 1) + d * d) * u)%R
      with ((c - 1) * ((c * u - d * v) - u)
            + d * ((c * v + d * u) - v))%R by ring.
    rewrite E1, E2. ring. }
  assert (Hv : (((c - 1) * (c - 1) + d * d) * v = 0)%R).
  { replace (((c - 1) * (c - 1) + d * d) * v)%R
      with ((c - 1) * ((c * v + d * u) - v)
            - d * ((c * u - d * v) - u))%R by ring.
    rewrite E1, E2. ring. }
  apply Rmult_integral in Hu, Hv.
  f_equal; [destruct Hu | destruct Hv]; tauto.
Qed.

(** The sum of the [n] powers of an [n]-th root of unity. *)
Lemma roots_sum n m :
  0 < n ->
  Csum (map (fun k => omega n (m * k)) (seq 0 n))
  = if m mod n =? 0 then (INR n, 0%R) else C0.
Proof.
  intro Hn. destruct (m mod n =? 0) eqn:E.
  - apply Nat.eqb_eq in E. apply Nat.Div0.div_exact in E.
    rewrite <- (length_seq n 0) at 2. rewrite <- Csum_ones. f_equal.
    apply map_ext. intro k. rewrite E, <- Nat.mul_assoc.
    apply omega_period. exact Hn.
  - apply Nat.eqb_neq in E.
    apply (@fixed_point_zero (omega n m) _); [apply omega_neq_1; assumption|].
    pose proof (geometric_step n m n) as G.
    rewrite (Nat.mul_comm m n), omega_period in G by exact Hn.
    set (S0 := Csum _) in *. set (z := omega n m) in *.
    destruct (Cmul z S0) as [a b] eqn:Ez, S0 as [u v].
    unfold Cadd, Cone in G. cbn [fst snd] in G. injection G as G1 G2.
    f_equal; lra.
Qed.

Lemma Cconj_omega n j k :
  0 < n -> j <= n -> Cconj (omega n (j * k)) = omega n ((n - j) * k).
Proof.
  intros Hn Hj. unfold Cconj, omega. cbn [fst snd].
  rewrite !mult_INR, minus_INR by exact Hj.
  replace (2 * PI * ((INR n - INR j) * INR k) / INR n)%R
    with (- (2 * PI * (INR j * INR k) / INR n) + 2 * INR k * PI)%R
    by (field; apply not_0_INR; lia).
  rewrite cos_period, sin_period, cos_neg, sin_neg. f_equal.
Qed.

Lemma shifted_mod_zero n m j :
  0 < n -> j < n -> ((m + (n - j)) mod n =? 0) = (m mod n =? j).
Proof.
  intros Hn Hj. rewrite <- Nat.Div0.add_mod_idemp_l.
  assert (Hr : m mod n < n) by (apply Nat.mod_upper_bound; lia).
  set (r := m mod n) in *.
  destruct (Nat.lt_trichotomy r j) as [H|[H|H]].
  - rewrite Nat.mod_small by lia.
    replace (r =? j) with false by (symmetry; apply Nat.eqb_neq; lia).
    apply Nat.eqb_neq. lia.
  - subst r. rewrite H. replace (j + (n - j)) with n by lia.
    rewrite Nat.Div0.mod_same, !Nat.eqb_refl. reflexivity.
  - replace (r =? j) with false by (symmetry; apply Nat.eqb_neq; lia).
    apply Nat.eqb_neq.
    rewrite <- (Nat.mod_unique (r + (n - j)) n 1 (r - j)); lia.
Qed.

(** Orthogonality of the twiddle factors. *)
Lemma twiddle_orthogonal n m j :
  0 < n -> j < n ->
  Csum (map (fun k => Cmul (omega n (m * k)) (Cconj (omega n (j * k))))
            (seq 0 n))
  = if m mod n =? j then (INR n, 0%R) else C0.
Proof.
  intros Hn Hj. rewrite <- shifted_mod_zero by assumption.
  rewrite <- roots_sum by exact Hn. f_equal. apply map_ext. intro k.
  rewrite Cconj_omega by lia. rewrite <- omega_add. f_equal. lia.
Qed.

Lemma Csum_Cmul_r {A} (f : A -> C) c l :
  Cmul (Csum (map f l)) c = Csum (map (fun x => Cmul (f x) c) l).
Proof.
  induction l as [|x l IH]; simpl; [calg|]. rewrite <- IH. calg.
Qed.

Lemma Csum_Cmul_l {A} (f : A -> C) c l :
  Cmul c (Csum (map f l)) = Csum (map (fun x => Cmul c (f x)) l).
Proof.
  induction l as [|x l IH]; simpl; [calg|]. rewrite <- IH. calg.
Qed.

Lemma Csum_Cscal {A} (f : A -> C) a l :
  Cscal a (Csum (map f l)) = Csum (map (fun x => Cscal a (f x)) l).
Proof.
  induction l as [|x l IH]; simpl; [calg|]. rewrite <- IH. calg.
Qed.

Lemma Csum_Cadd {A} (f g : A -> C) l :
  Csum (map (fun x => Cadd (f x) (g x)) l)
  = Cadd (Csum (map f l)) (Csum (map g l)).
Proof.
  induction l as [|x l IH]; simpl; [calg|]. rewrite IH. calg.
Qed.

Lemma Csum_zero {A} (l : list A) : Csum (map (fun _ => C0) l) = C0.
Proof.
  induction l as [|x l IH]; simpl; [reflexivity|]. rewrite IH. calg.
Qed.

Lemma Csum_exchange {A B} (T : A -> B -> C) la lb :
  Csum (map (fun a => Csum (map (fun b => T a b) lb)) la)
  = Csum (map (fun b => Csum (map (fun a => T a b) la)) lb).
Proof.
  induction la as [|a la IH]; simpl.
  - rewrite Csum_zero. reflexivity.
  - rewrite IH, <- Csum_Cadd. reflexivity.
Qed.

Lemma Csum_embed {A} (f : A -> R) l :
  Csum (map (fun x => (f x, 0%R)) l) = (Rsum (map f l), 0%R).
Proof.
  induction l as [|x l IH]; simpl; [reflexivity|]. rewrite IH. calg.
Qed.

Lemma spectra_product_expand n (u v : nat -> R) c k :
  Cmul (Cmul (dft n u k) (dft n v k)) c
  = Csum (map (fun p =>
       Csum (map (fun q =>
         Cscal (u p * v q) (Cmul (omega n ((p + q) * k)) c))
         (seq 0 n))) (seq 0 n)).
Proof.
  unfold dft. rewrite Csum_Cmul_r, Csum_Cmul_r. f_equal. apply map_ext.
  intro p. rewrite Csum_Cmul_l, Csum_Cmul_r. f_equal. apply map_ext. intro q.
  replace ((p + q) * k) with (p * k + q * k) by lia. rewrite omega_add.
  calg.
Qed.

(** The convolution theorem for one pair of real rows. *)
Lemma convolution_theorem n (u v : nat -> R) j :
  0 < n -> j < n ->
  Cscal (/ INR n)
    (Csum (map (fun k => Cmul (Cmul (dft n u k) (dft n v k))
                              (Cconj (omega n (j * k))))
               (seq 0 n)))
  = (circular_convolution n u v j, 0%R).
Proof.
  intros Hn Hj.
  assert (Hn0 : INR n <> 0%R) by (apply not_0_INR; lia).
  rewrite (@map_ext _ _ _ _ (fun k => @spectra_product_expand n u v _ k)).
  rewrite (Csum_exchange
             (fun k p => Csum (map (fun q =>
                Cscal (u p * v q)
                  (Cmul (omega n ((p + q) * k)) (Cconj (omega n (j * k)))))
                (seq 0 n)))).
  rewrite Csum_Cscal. unfold circular_convolution.
  rewrite <- Csum_embed. f_equal. apply map_ext. intro p.
  rewrite (Csum_exchange
             (fun k q => Cscal (u p * v q)
                (Cmul (omega n ((p + q) * k)) (Cconj (omega n (j * k)))))).
  rewrite Csum_Cscal, <- Csum_embed. f_equal. apply map_ext. intro q.
  rewrite <- Csum_Cscal, twiddle_orthogonal by assumption.
  destruct ((p + q) mod n =? j); unfold Cscal, C0; cbn [fst snd];
    f_equal; field; exact Hn0.
Qed.

Lemma Csum_delta (f : nat -> C) n j :
  Csum (map (fun p => if p =? j then f p else C0) (seq 0 n))
  = if j <? n then f j else C0.
Proof.
  induction n as [|n IH]; [reflexivity|].
  rewrite seq_S, map_app, Csum_app, IH. cbn [map Nat.add Csum fold_right].
  destruct (Nat.lt_trichotomy j n) as [H|[H|H]].
  - replace (j <? n) with true by (symmetry; apply Nat.ltb_lt; lia).
    replace (j <? S n) with true by (symmetry; apply Nat.ltb_lt; lia).
    replace (n =? j) with false by (symmetry; apply Nat.eqb_neq; lia). calg.
  - subst j. rewrite Nat.ltb_irrefl, Nat.eqb_refl.
    replace (n <? S n) with true by (symmetry; apply Nat.ltb_lt; lia). calg.
  - replace (j <? n) with false by (symmetry; apply Nat.ltb_ge; lia).
    replace (j <? S n) with false by (symmetry; apply Nat.ltb_ge; lia).
    replace (n =? j) with false by (symmetry; apply Nat.eqb_neq; lia). calg.
Qed.

(** The inverse transform undoes the transform, entry by entry. *)
Lemma inverse_of_transform n (t : nat -> C) j :
  0 < n -> j < n ->
  Cscal (/ INR n)
    (Csum (map (fun k =>
             Cmul (Csum (map (fun p => Cmul (t p) (omega n (p * k))) (seq 0 n)))
                  (Cconj (omega n (j * k))))
          (seq 0 n)))
  = t j.
Proof.
  intros Hn Hj.
  assert (Hn0 : INR n <> 0%R) by (apply not_0_INR; lia).
  rewrite (@map_ext _ _ _ _ (fun k => @Csum_Cmul_r _ _ _ _)).
  rewrite (Csum_exchange
             (fun k p => Cmul (Cmul (t p) (omega n (p * k)))
                              (Cconj (omega n (j * k))))).
  transitivity
    (Cscal (/ INR n)
       (Csum (map (fun p => if p =? j then Cmul (t p) (INR n, 0%R) else C0)
                  (seq 0 n)))).
  - do 2 f_equal. apply map_ext_in. intros p Hp. apply in_seq in Hp.
    transitivity
      (Cmul (t p)
         (Csum (map (fun k => Cmul (omega n (p * k)) (Cconj (omega n (j * k))))
                    (seq 0 n)))).
    + rewrite Csum_Cmul_l. f_equal. apply map_ext. intro k. calg.
    + rewrite twiddle_orthogonal by assumption.
      rewrite Nat.mod_small by lia. destruct (p =? j); [reflexivity|calg].
  - rewrite Csum_delta.
    replace (j <? n) with true by (symmetry; apply Nat.ltb_lt; exact Hj).
    destruct (t j) as [a b]. unfold Cscal, Cmul. cbn [fst snd].
    f_equal; field; exact Hn0.
Qed.

Lemma tabulate2_eta {A} (d : A) (t : Tensor A) r c :
  shape t = [r; c] -> length (data t) = r * c ->
  tabulate2 r c (get2 d t) = t.
Proof.
  intros Hs Hl. destruct t as [sh dt]. cbn [shape data] in *. subst sh.
  unfold tabulate2. f_equal. unfold get2, ncols. cbn [shape data nth].
  apply (nth_ext _ _ d d).
  - rewrite length_rows_from. lia.
  - intros k Hk. rewrite length_rows_from in Hk.
    assert (Hc : 0 < c) by (destruct c; [lia|lia]).
    assert (Hq : k / c < r)
      by (apply Nat.Div0.div_lt_upper_bound; lia).
    assert (Hm : k mod c < c) by (apply Nat.mod_upper_bound; lia).
    rewrite (Nat.div_mod_eq k c) at 1. rewrite (Nat.mul_comm c (k / c)).
    rewrite (@nth_rows_from _ d (fun i j => nth (i * c + j) dt d) c r 0 (k / c) (k mod c) Hq Hm).
    cbn [Nat.add]. f_equal. rewrite (Nat.div_mod_eq k c) at 3. lia.
Qed.

(** [_ifft] after [_fft], batched, gives back any matrix with at least one
    column. *)
Lemma fft_round_trip (t : Tensor C) r n :
  shape t = [r; n] -> wf_tensor t -> 1 <= n ->
  exists u, _fft t false = Some u /\ _ifft u false = Some t.
Proof.
  intros Hs Hw Hn. eexists. split; [reflexivity|].
  unfold _ifft. f_equal.
  assert (Hl : length (data t) = r * n).
  { unfold wf_tensor in Hw. rewrite Hw, Hs. unfold numel; simpl. lia. }
  rewrite <- (@tabulate2_eta _ C0 t r n Hs Hl) at 2.
  unfold tf_signal_ifft, tf_signal_fft.
  rewrite !nrows_tabulate2, !ncols_tabulate2.
  unfold nrows, ncols. rewrite Hs. cbn [nth].
  apply tabulate2_ext. intros i j Hi Hj.
  rewrite <- (@inverse_of_transform n (get2 C0 t i) j) by lia.
  do 2 f_equal. apply map_ext_in. intros k Hk. apply in_seq in Hk.
  rewrite get2_tabulate2 by lia. reflexivity.
Qed.

(* ------------------------------------------------------------------ *)
(** ** The transforms and their product *)

Lemma circular_convolution_ext n (u u' v v' : nat -> R) j :
  (forall p, p < n -> u p = u' p) -> (forall q, q < n -> v q = v' q) ->
  circular_convolution n u v j = circular_convolution n u' v' j.
Proof.
  intros Hu Hv. unfold circular_convolution. f_equal.
  apply map_ext_in. intros p Hp. apply in_seq in Hp. f_equal.
  apply map_ext_in. intros q Hq. apply in_seq in Hq.
  rewrite Hu, Hv by lia. reflexivity.
Qed.

Lemma pool_entry_is_convolution n N1 N2 (f1 f2 : nat -> nat -> R) r j :
  0 < n -> j < n ->
  pool_entry n N1 N2 f1 f2 r j
  = circular_convolution n (f1 (bidx N1 r)) (f2 (bidx N2 r)) j.
Proof.
  intros Hn Hj. unfold pool_entry.
  rewrite convolution_theorem by assumption. reflexivity.
Qed.

Lemma Forall_tabulate2 {A} (P : A -> Prop) r c (f : nat -> nat -> A) :
  (forall i j, i < r -> j < c -> P (f i j)) ->
  Forall P (data (tabulate2 r c f)).
Proof.
  intro Hf. apply Forall_forall. intros x Hx. cbn [data tabulate2] in Hx.
  apply in_flat_map in Hx. destruct Hx as [i [Hi Hx]].
  apply in_map_iff in Hx. destruct Hx as [j [<- Hj]].
  apply in_seq in Hi, Hj. apply Hf; lia.
Qed.

(** The matrix [_ifft] returns for the product of the transforms of two
    real matrices of one shape. *)
Lemma ifft_of_product N n (f1 f2 : nat -> nat -> R) :
  exists prod,
    tf_multiply
      (_fft (tf_complex (tabulate2 N n f1) (tf_zeros_like (tabulate2 N n f1)))
            false)
      (_fft (tf_complex (tabulate2 N n f2) (tf_zeros_like (tabulate2 N n f2)))
            false) = Ok prod
    /\ _ifft prod false
       = Some (tabulate2 N n
                 (fun r j =>
                    Cscal (/ INR n)
                      (Csum (map (fun k => Cmul (Cmul (dft n (f1 r) k)
                                                      (dft n (f2 r) k))
                                                (Cconj (omega n (j * k))))
                                 (seq 0 n))))).
Proof.
  unfold _fft, _ifft. rewrite !spectrum_tabulate2.
  unfold tf_multiply. rewrite !nrows_tabulate2, !ncols_tabulate2.
  replace (broadcast_dim n n) with (Some n)
    by (unfold broadcast_dim; rewrite Nat.eqb_refl; reflexivity).
  replace (broadcast_dim N N) with (Some N)
    by (unfold broadcast_dim; rewrite Nat.eqb_refl; reflexivity).
  eexists. split; [reflexivity|]. f_equal. unfold tf_signal_ifft.
  rewrite nrows_tabulate2, ncols_tabulate2.
  apply tabulate2_ext. intros r j Hr Hj. do 2 f_equal.
  apply map_ext_in. intros k Hk. apply in_seq in Hk.
  rewrite get2_tabulate2 by lia.
  rewrite (@bidx_lt N r), (@bidx_lt n k) by lia.
  rewrite !get2_tabulate2 by lia. reflexivity.
Qed.

(** X4. The inverse transform of the product of the transforms of two real
    matrices has no imaginary part at all: [tf.math.real] at line 126
    discards zeros. *)
Theorem X4_inverse_transform_of_product_is_real
    (sk1 sk2 : Tensor R) (N n : nat) :
  shape sk1 = [N; n] -> shape sk2 = [N; n] ->
  wf_tensor sk1 -> wf_tensor sk2 -> 1 <= n ->
  exists prod inv,
    tf_multiply (_fft (tf_complex sk1 (tf_zeros_like sk1)) false)
                (_fft (tf_complex sk2 (tf_zeros_like sk2)) false) = Ok prod
    /\ _ifft prod false = Some inv
    /\ shape inv = [N; n]
    /\ Forall (fun z => snd z = 0%R) (data inv).
Proof.
  intros S1 S2 W1 W2 Hn.
  assert (L1 : length (data sk1) = N * n).
  { unfold wf_tensor in W1. rewrite W1, S1. unfold numel; simpl. lia. }
  assert (L2 : length (data sk2) = N * n).
  { unfold wf_tensor in W2. rewrite W2, S2. unfold numel; simpl. lia. }
  rewrite <- (@tabulate2_eta _ 0%R sk1 N n S1 L1).
  rewrite <- (@tabulate2_eta _ 0%R sk2 N n S2 L2).
  destruct (ifft_of_product N n (get2 0%R sk1) (get2 0%R sk2))
    as [prod [Hp Hi]].
  exists prod. eexists. split; [exact Hp|]. split; [exact Hi|].
  split; [reflexivity|].
  apply Forall_tabulate2. intros r j Hr Hj.
  rewrite convolution_theorem by lia. reflexivity.
Qed.

Lemma X4_inverse_transform_witness :
  exists prod inv,
    tf_multiply
      (_fft (tf_complex {| shape := [1; 2]; data := [3%R; 4%R] |}
               (tf_zeros_like {| shape := [1; 2]; data := [3%R; 4%R] |}))
            false)
      (_fft (tf_complex {| shape := [1; 2]; data := [5%R; 6%R] |}
               (tf_zeros_like {| shape := [1; 2]; data := [5%R; 6%R] |}))
            false) = Ok prod
    /\ _ifft prod false = Some inv
    /\ shape inv = [1; 2]
    /\ Forall (fun z => snd z = 0%R) (data inv).
Proof.
  apply (@X4_inverse_transform_of_product_is_real
           {| shape := [1; 2]; data := [3%R; 4%R] |}
           {| shape := [1; 2]; data := [5%R; 6%R] |} 1 2);
    try reflexivity; lia.
Defined.

(** The transform undoes the inverse transform, entry by entry. *)
Lemma transform_of_inverse n (t : nat -> C) j :
  0 < n -> j < n ->
  Csum (map (fun p =>
          Cmul (Cscal (/ INR n)
                  (Csum (map (fun k => Cmul (t k) (Cconj (omega n (p * k))))
                             (seq 0 n))))
               (omega n (p * j)))
       (seq 0 n))
  = t j.
Proof.
  intros Hn Hj.
  assert (Hn0 : INR n <> 0%R) by (apply not_0_INR; lia).
  transitivity
    (Cscal (/ INR n)
       (Csum (map (fun k => if k =? j then Cmul (t k) (INR n, 0%R) else C0)
                  (seq 0 n)))).
  - rewrite Csum_Cscal.
    transitivity
      (Csum (map (fun p =>
         Csum (map (fun k =>
           Cscal (/ INR n)
             (Cmul (t k) (Cmul (omega n (j * p)) (Cconj (omega n (k * p))))))
           (seq 0 n))) (seq 0 n))).
    + f_equal. apply map_ext. intro p.
      rewrite Csum_Cscal, Csum_Cmul_r. f_equal. apply map_ext. intro k.
      rewrite (Nat.mul_comm p k), (Nat.mul_comm p j). calg.
    + rewrite (Csum_exchange
                 (fun p k => Cscal (/ INR n)
                    (Cmul (t k)
                       (Cmul (omega n (j * p)) (Cconj (omega n (k * p))))))).
      f_equal. apply map_ext_in. intros k Hk. apply in_seq in Hk.
      rewrite <- Csum_Cscal. f_equal.
      rewrite <- Csum_Cmul_l, twiddle_orthogonal by lia.
      rewrite Nat.mod_small by lia. rewrite (Nat.eqb_sym j k).
      destruct (k =? j); [reflexivity|calg].
  - rewrite Csum_delta.
    replace (j <? n) with true by (symmetry; apply Nat.ltb_lt; exact Hj).
    destruct (t j) as [a b]. unfold Cscal, Cmul. cbn [fst snd].
    f_equal; field; exact Hn0.
Qed.

Lemma fft_after_ifft (t : Tensor C) r n :
  shape t = [r; n] -> wf_tensor t -> 1 <= n ->
  tf_signal_fft (tf_signal_ifft t) = t.
Proof.
  intros Hs Hw Hn.
  assert (Hl : length (data t) = r * n).
  { unfold wf_tensor in Hw. rewrite Hw, Hs. unfold numel; simpl. lia. }
  rewrite <- (@tabulate2_eta _ C0 t r n Hs Hl) at 2.
  unfold tf_signal_ifft, tf_signal_fft.
  rewrite !nrows_tabulate2, !ncols_tabulate2.
  unfold nrows, ncols. rewrite Hs. cbn [nth].
  apply tabulate2_ext. intros i j Hi Hj.
  rewrite <- (@transform_of_inverse n (get2 C0 t i) j) by lia.
  f_equal. apply map_ext_in. intros p Hp. apply in_seq in Hp.
  rewrite get2_tabulate2 by lia. reflexivity.
Qed.

(** X5. Batched, [_fft] and [_ifft] are inverse to each other on every
    complex matrix with at least one column. *)
Theorem X5_fft_ifft_round_trip (t : Tensor C) (r n : nat) :
  shape t = [r; n] -> wf_tensor t -> 1 <= n ->
  (exists u, _fft t false = Some u /\ _ifft u false = Some t)
  /\ (exists v, _ifft t false = Some v /\ _fft v false = Some t).
Proof.
  intros Hs Hw Hn. split.
  - apply (@fft_round_trip t r n Hs Hw Hn).
  - eexists. split; [reflexivity|]. unfold _fft. f_equal.
    apply (@fft_after_ifft t r n Hs Hw Hn).
Qed.

Lemma X5_fft_ifft_witness :
  let t := {| shape := [1; 2]; data := [(1%R, 2%R); (3%R, 4%R)] |} in
  (exists u, _fft t false = Some u /\ _ifft u false = Some t)
  /\ (exists v, _ifft t false = Some v /\ _fft v false = Some t).
Proof.
  apply (@X5_fft_ifft_round_trip
           {| shape := [1; 2]; data := [(1%R, 2%R); (3%R, 4%R)] |} 1 2);
    try reflexivity; lia.
Defined.

(* ---------- more algebra of [pool_entry] ---------- *)

Lemma Cmul_Clin_r a x b y z :
  Cmul z (Clin a x b y) = Clin a (Cmul z x) b (Cmul z y).
Proof. calg. Qed.

Lemma pool_entry_linear_r n N1 N2 a b (f1 f g : nat -> nat -> R) r j :
  pool_entry n N1 N2 f1 (fun r j => (a * f r j + b * g r j)%R) r j
  = (a * pool_entry n N1 N2 f1 f r j + b * pool_entry n N1 N2 f1 g r j)%R.
Proof.
  unfold pool_entry. rewrite <- fst_Clin, <- Cscal_Clin, <- Csum_Clin.
  do 3 f_equal. apply map_ext. intro k.
  rewrite dft_linear, Cmul_Clin_r, Cmul_Clin_l. reflexivity.
Qed.

Lemma pool_entry_ext_rows n N1 N2 (f1 g1 f2 g2 : nat -> nat -> R) r j :
  (forall p, f1 (bidx N1 r) p = g1 (bidx N1 r) p) ->
  (forall p, f2 (bidx N2 r) p = g2 (bidx N2 r) p) ->
  pool_entry n N1 N2 f1 f2 r j = pool_entry n N1 N2 g1 g2 r j.
Proof.
  intros E1 E2. unfold pool_entry. do 3 f_equal. apply map_ext. intro k.
  f_equal. unfold dft. f_equal; f_equal; apply map_ext; intro p;
    [rewrite E1 | rewrite E2]; reflexivity.
Qed.

Lemma pool_entry_swap n N1 N2 (f1 f2 : nat -> nat -> R) r j :
  pool_entry n N1 N2 f1 f2 r j = pool_entry n N2 N1 f2 f1 r j.
Proof.
  unfold pool_entry. do 3 f_equal. apply map_ext. intro k. calg.
Qed.

Lemma dft_zero n (u : nat -> R) k :
  (forall p, u p = 0%R) -> dft n u k = C0.
Proof.
  intro Hu. unfold dft. rewrite <- (Csum_zero (seq 0 n)). f_equal.
  apply map_ext. intro p. rewrite Hu. calg.
Qed.

Lemma pool_entry_zero n N1 N2 (f1 f2 : nat -> nat -> R) r j :
  (forall p, f1 (bidx N1 r) p = 0%R) \/ (forall p, f2 (bidx N2 r) p = 0%R) ->
  pool_entry n N1 N2 f1 f2 r j = 0%R.
Proof.
  intro Hz. unfold pool_entry.
  replace (Csum _) with C0; [unfold Cscal, C0; cbn [fst snd]; ring|].
  rewrite <- (Csum_zero (seq 0 n)). f_equal. apply map_ext. intro k.
  destruct Hz as [Hz|Hz]; rewrite (@dft_zero n _ k Hz); calg.
Qed.

Lemma nth_zeros {A} (l : list A) k : nth k (map (fun _ => 0%R) l) 0%R = 0%R.
Proof.
  revert k; induction l as [|x l IH]; intros [|k]; simpl; auto.
Qed.

Lemma sketch_entry_zero h s (x : Tensor R) N c n b :
  sketch_entry h s (flat_rows (tf_zeros_like x) N c) n b = 0%R.
Proof.
  unfold sketch_entry, flat_rows, get2, tf_zeros_like. cbn [shape data].
  induction (filter _ _) as [|i l IH]; simpl; [reflexivity|].
  rewrite IH, nth_zeros. ring.
Qed.

Lemma sketch_entry_linear a b (x y : Tensor R) h s N c n bk :
  length (data x) = length (data y) ->
  sketch_entry h s (flat_rows (lincomb a x b y) N c) n bk
  = (a * sketch_entry h s (flat_rows x N c) n bk
     + b * sketch_entry h s (flat_rows y N c) n bk)%R.
Proof.
  intro E. unfold sketch_entry, flat_rows.
  apply count_sketch_entry_linear. exact E.
Qed.

(* ---------- real sums ---------- *)

Lemma Rsum_add {A} (f g : A -> R) l :
  Rsum (map (fun x => (f x + g x)%R) l)
  = (Rsum (map f l) + Rsum (map g l))%R.
Proof.
  induction l as [|x l IH]; simpl; [ring|]. rewrite IH. ring.
Qed.

Lemma Rsum_zero {A} (l : list A) : Rsum (map (fun _ => 0%R) l) = 0%R.
Proof.
  induction l as [|x l IH]; simpl; [reflexivity|]. rewrite IH. ring.
Qed.

Lemma Rsum_exchange {A B} (T : A -> B -> R) la lb :
  Rsum (map (fun a => Rsum (map (fun b => T a b) lb)) la)
  = Rsum (map (fun b => Rsum (map (fun a => T a b) la)) lb).
Proof.
  induction la as [|a la IH]; simpl.
  - rewrite Rsum_zero. reflexivity.
  - rewrite IH, <- Rsum_add. reflexivity.
Qed.

Lemma Rsum_delta (c : R) n j :
  Rsum (map (fun b => if j =? b then c else 0%R) (seq 0 n))
  = if j <? n then c else 0%R.
Proof.
  induction n as [|n IH]; [reflexivity|].
  rewrite seq_S, map_app. cbn [map Nat.add].
  assert (Happ : forall l1 l2, Rsum (l1 ++ l2) = (Rsum l1 + Rsum l2)%R).
  { induction l1 as [|x l1 IHl]; intro l2; simpl; [ring|].
    rewrite IHl. ring. }
  rewrite Happ, IH. cbn [Rsum fold_right].
  destruct (Nat.lt_trichotomy j n) as [H|[H|H]].
  - replace (j <? n) with true by (symmetry; apply Nat.ltb_lt; lia).
    replace (j <? S n) with true by (symmetry; apply Nat.ltb_lt; lia).
    replace (j =? n) with false by (symmetry; apply Nat.eqb_neq; lia). ring.
  - subst j. rewrite Nat.ltb_irrefl, Nat.eqb_refl.
    replace (n <? S n) with true by (symmetry; apply Nat.ltb_lt; lia). ring.
  - replace (j <? n) with false by (symmetry; apply Nat.ltb_ge; lia).
    replace (j <? S n) with false by (symmetry; apply Nat.ltb_ge; lia).
    replace (j =? n) with false by (symmetry; apply Nat.eqb_neq; lia). ring.
Qed.


(* ------------------------------------------------------------------ *)
(** ** Calls with supplied sketches *)

Section SuppliedOutcome.

Context {RNG : NumpyRandom}.

Variables (bottom1 bottom2 : Tensor R) (D : Z) (cfg : Config).
Variables (B H W : nat).
Variables (h1 h2 : list Z) (s1 s2 : list Q).
Variable w : World.

Hypothesis shape1 : shape bottom1 = [B; H; W; length h1].
Hypothesis shape2 : shape bottom2 = [B; H; W; length h2].
Hypothesis channels1 : 1 <= length h1.
Hypothesis channels2 : 1 <= length h2.
Hypothesis signs1 : length h1 = length s1.
Hypothesis signs2 : length h2 = length s2.
Hypothesis range1 : Forall (fun z => (0 <= z < D)%Z) h1.
Hypothesis range2 : Forall (fun z => (0 <= z < D)%Z) h2.
Hypothesis given_h1 : rand_h_1 cfg = Some (array1 (map inject_Z h1)).
Hypothesis given_s1 : rand_s_1 cfg = Some (array1 s1).
Hypothesis given_h2 : rand_h_2 cfg = Some (array1 (map inject_Z h2)).
Hypothesis given_s2 : rand_s_2 cfg = Some (array1 s2).

(** What a call with valid supplied sketches on inputs of one batch, height
    and width comes down to. *)
Lemma pool_supplied_outcome :
  outcome (compact_bilinear_pooling_layer bottom1 bottom2 D cfg) w
  = if sequential cfg then Raise ValueError
    else tf_reshape
      (tabulate2 (B * (H * W)) (Z.to_nat D)
         (pool_entry (Z.to_nat D) (B * (H * W)) (B * (H * W))
            (sketch_entry h1 s1 (flat_rows bottom1 (B * (H * W)) (length h1)))
            (sketch_entry h2 s2 (flat_rows bottom2 (B * (H * W)) (length h2)))))
      [(-1)%Z; Z.of_nat H; Z.of_nat W; Z.of_nat (length h1)].
Proof.
  unfold outcome.
  rewrite (pool_explicit_run bottom1 bottom2 cfg shape1 shape2 channels1
             channels2 signs1 signs2 range1 range2 given_h1 given_s1
             given_h2 given_s2 w).
  cbn [fst]. destruct (sequential cfg); [reflexivity|].
  unfold count_sketch. rewrite fuse_batched.
  replace (broadcast_dim (B * (H * W)) (B * (H * W)))
    with (Some (B * (H * W)))
    by (unfold broadcast_dim; rewrite Nat.eqb_refl; reflexivity).
  reflexivity.
Qed.

(** The elements of the returned tensor, in row-major order. *)
Lemma pool_supplied_entry (t : Tensor R) r j :
  outcome (compact_bilinear_pooling_layer bottom1 bottom2 D cfg) w = Ok t ->
  r < B * (H * W) -> j < Z.to_nat D ->
  nth (r * Z.to_nat D + j) (data t) 0%R
  = pool_entry (Z.to_nat D) (B * (H * W)) (B * (H * W))
      (sketch_entry h1 s1 (flat_rows bottom1 (B * (H * W)) (length h1)))
      (sketch_entry h2 s2 (flat_rows bottom2 (B * (H * W)) (length h2))) r j.
Proof.
  intros Hok Hr Hj. rewrite pool_supplied_outcome in Hok.
  destruct (sequential cfg); [discriminate|].
  apply tf_reshape_data in Hok. rewrite Hok. cbn [data tabulate2].
  rewrite nth_rows_from by assumption. reflexivity.
Qed.

Lemma pool_supplied_data (t : Tensor R) :
  outcome (compact_bilinear_pooling_layer bottom1 bottom2 D cfg) w = Ok t ->
  data t
  = data (tabulate2 (B * (H * W)) (Z.to_nat D)
      (pool_entry (Z.to_nat D) (B * (H * W)) (B * (H * W))
         (sketch_entry h1 s1 (flat_rows bottom1 (B * (H * W)) (length h1)))
         (sketch_entry h2 s2 (flat_rows bottom2 (B * (H * W)) (length h2))))).
Proof.
  intros Hok. rewrite pool_supplied_outcome in Hok.
  destruct (sequential cfg); [discriminate|].
  apply tf_reshape_data in Hok. exact Hok.
Qed.

End SuppliedOutcome.

(** X1. When [output_dim] equals the channel count of the first input (and
    height and width are positive) a batched call with valid supplied
    sketches returns, and the returned tensor is well formed with shape
    [B, H, W, output_dim]. *)
Theorem X1_shape_contract_when_channels_equal_output_dim {RNG : NumpyRandom}
    (bottom1 bottom2 : Tensor R) (D : Z) (cfg : Config) (B H W : nat)
    (h1 h2 : list Z) (s1 s2 : list Q) (w : World) :
  shape bottom1 = [B; H; W; length h1] ->
  shape bottom2 = [B; H; W; length h2] ->
  1 <= length h1 -> 1 <= length h2 ->
  length h1 = length s1 -> length h2 = length s2 ->
  Forall (fun z => (0 <= z < D)%Z) h1 ->
  Forall (fun z => (0 <= z < D)%Z) h2 ->
  rand_h_1 cfg = Some (array1 (map inject_Z h1)) ->
  rand_s_1 cfg = Some (array1 s1) ->
  rand_h_2 cfg = Some (array1 (map inject_Z h2)) ->
  rand_s_2 cfg = Some (array1 s2) ->
  sequential cfg = false ->
  length h1 = Z.to_nat D -> 1 <= H -> 1 <= W ->
  exists t,
    outcome (compact_bilinear_pooling_layer bottom1 bottom2 D cfg) w = Ok t
    /\ shape t = [B; H; W; Z.to_nat D]
    /\ wf_tensor t.
Proof.
  intros S1 S2 C1 C2 L1 L2 R1 R2 G1 G2 G3 G4 Hseq Hc HH HW.
  rewrite (@pool_supplied_outcome RNG bottom1 bottom2 D cfg B H W
             h1 h2 s1 s2 w S1 S2 C1 C2 L1 L2 R1 R2 G1 G2 G3 G4).
  rewrite Hseq, tf_reshape_4d_pos by assumption. rewrite shape_tabulate2, Hc.
  assert (Hk : H * (W * Z.to_nat D) <> 0) by nia.
  replace (numel [B * (H * W); Z.to_nat D])
    with (B * (H * (W * Z.to_nat D))) by (unfold numel; simpl; lia).
  rewrite Nat.Div0.mod_mul, Nat.div_mul by exact Hk. cbn [Nat.eqb].
  eexists. split; [reflexivity|]. split; [reflexivity|].
  unfold wf_tensor. cbn [shape data tabulate2]. rewrite length_rows_from.
  unfold numel; simpl. lia.
Qed.

(** Two batches of 3 x 1 positions, two channels, two buckets. *)
Lemma X1_shape_contract_witness :
  exists t,
    outcome (@compact_bilinear_pooling_layer lcg_random
               (ones [2; 3; 1; 2]) (ones [2; 3; 1; 1]) 2
               (with_sketches [1%Q; 0%Q] [1%Q; (- (1))%Q] [1%Q] [1%Q] false))
            (lcg_world 0) = Ok t
    /\ shape t = [2; 3; 1; 2]
    /\ wf_tensor t.
Proof.
  apply (@X1_shape_contract_when_channels_equal_output_dim lcg_random
           (ones [2; 3; 1; 2]) (ones [2; 3; 1; 1]) 2%Z
           (with_sketches [1%Q; 0%Q] [1%Q; (- (1))%Q] [1%Q] [1%Q] false)
           2 3 1 [1; 0]%Z [1%Z] [1%Q; (- (1))%Q] [1%Q] (lcg_world 0));
    try reflexivity; try (simpl; lia); try (repeat constructor; lia).
Defined.

(** X2. On inputs of positive height and width, a batched call with valid
    supplied sketches returns exactly when H * W * C1 divides
    B * H * W * output_dim; the tensor it returns then holds
    B * H * W * output_dim elements under the shape
    [B * H * W * output_dim / (H * W * C1), H, W, C1].  When it does not
    divide, the final reshape raises [InvalidArgumentError]. *)
Theorem X2_returns_iff_reshape_divides {RNG : NumpyRandom}
    (bottom1 bottom2 : Tensor R) (D : Z) (cfg : Config) (B H W : nat)
    (h1 h2 : list Z) (s1 s2 : list Q) (w : World) :
  shape bottom1 = [B; H; W; length h1] ->
  shape bottom2 = [B; H; W; length h2] ->
  1 <= length h1 -> 1 <= length h2 ->
  length h1 = length s1 -> length h2 = length s2 ->
  Forall (fun z => (0 <= z < D)%Z) h1 ->
  Forall (fun z => (0 <= z < D)%Z) h2 ->
  rand_h_1 cfg = Some (array1 (map inject_Z h1)) ->
  rand_s_1 cfg = Some (array1 s1) ->
  rand_h_2 cfg = Some (array1 (map inject_Z h2)) ->
  rand_s_2 cfg = Some (array1 s2) ->
  sequential cfg = false ->
  1 <= H -> 1 <= W ->
  ((B * (H * W) * Z.to_nat D) mod (H * (W * length h1)) = 0 ->
   exists t,
     outcome (compact_bilinear_pooling_layer bottom1 bottom2 D cfg) w = Ok t
     /\ shape t = [B * (H * W) * Z.to_nat D / (H * (W * length h1));
                   H; W; length h1]
     /\ length (data t) = B * (H * W) * Z.to_nat D
     /\ wf_tensor t)
  /\ ((B * (H * W) * Z.to_nat D) mod (H * (W * length h1)) <> 0 ->
      outcome (compact_bilinear_pooling_layer bottom1 bottom2 D cfg) w
      = Raise InvalidArgumentError).
Proof.
  intros S1 S2 C1 C2 L1 L2 R1 R2 G1 G2 G3 G4 Hseq HH HW.
  rewrite (@pool_supplied_outcome RNG bottom1 bottom2 D cfg B H W
             h1 h2 s1 s2 w S1 S2 C1 C2 L1 L2 R1 R2 G1 G2 G3 G4).
  rewrite Hseq, tf_reshape_4d_pos by assumption. rewrite shape_tabulate2.
  replace (numel [B * (H * W); Z.to_nat D]) with (B * (H * W) * Z.to_nat D)
    by (unfold numel; simpl; lia).
  split.
  - intros Hm. rewrite Hm. cbn [Nat.eqb].
    eexists. split; [reflexivity|]. split; [reflexivity|].
    cbn [shape data tabulate2]. rewrite length_rows_from.
    split; [reflexivity|].
    unfold wf_tensor. cbn [shape data]. rewrite length_rows_from.
    apply Nat.Div0.div_exact in Hm. unfold numel; simpl.
    rewrite Hm at 1. lia.
  - intros Hm.
    replace (_ mod _ =? 0) with false
      by (symmetry; apply Nat.eqb_neq; exact Hm).
    reflexivity.
Qed.

(** Two channels and three buckets: a batch of 2 is reshaped to 3, a batch
    of 1 cannot be reshaped. *)
Lemma X2_returns_iff_witness :
  (exists t,
     outcome (@compact_bilinear_pooling_layer lcg_random
                (ones [2; 1; 1; 2]) (ones [2; 1; 1; 1]) 3
                (with_sketches [2%Q; 0%Q] [1%Q; 1%Q] [1%Q] [1%Q] false))
             (lcg_world 0) = Ok t
     /\ shape t = [3; 1; 1; 2])
  /\ outcome (@compact_bilinear_pooling_layer lcg_random
                (ones [1; 1; 1; 2]) (ones [1; 1; 1; 1]) 3
                (with_sketches [2%Q; 0%Q] [1%Q; 1%Q] [1%Q] [1%Q] false))
             (lcg_world 0)
     = Raise InvalidArgumentError.
Proof.
  split.
  - destruct (proj1 (@X2_returns_iff_reshape_divides lcg_random
             (ones [2; 1; 1; 2]) (ones [2; 1; 1; 1]) 3%Z
             (with_sketches [2%Q; 0%Q] [1%Q; 1%Q] [1%Q] [1%Q] false)
             2 1 1 [2; 0]%Z [1%Z] [1%Q; 1%Q] [1%Q] (lcg_world 0)
             eq_refl eq_refl ltac:(simpl; lia) ltac:(simpl; lia)
             eq_refl eq_refl
             ltac:(repeat constructor; lia) ltac:(repeat constructor; lia)
             eq_refl eq_refl eq_refl eq_refl eq_refl
             ltac:(lia) ltac:(lia))
           eq_refl) as [t [Hok [Hs _]]].
    exists t. split; [exact Hok|exact Hs].
  - apply (proj2 (@X2_returns_iff_reshape_divides lcg_random
             (ones [1; 1; 1; 2]) (ones [1; 1; 1; 1]) 3%Z
             (with_sketches [2%Q; 0%Q] [1%Q; 1%Q] [1%Q] [1%Q] false)
             1 1 1 [2; 0]%Z [1%Z] [1%Q; 1%Q] [1%Q] (lcg_world 0)
             eq_refl eq_refl ltac:(simpl; lia) ltac:(simpl; lia)
             eq_refl eq_refl
             ltac:(repeat constructor; lia) ltac:(repeat constructor; lia)
             eq_refl eq_refl eq_refl eq_refl eq_refl
             ltac:(lia) ltac:(lia))).
    simpl. lia.
Defined.

(** X3. What a batched call returns is, position by position, the circular
    convolution of the two count sketches: element r * output_dim + j of the
    result is the sum of sketch1[r, p] * sketch2[r, q] over the p, q with
    (p + q) mod output_dim = j. *)
Theorem X3_pooled_entries_are_circular_convolutions {RNG : NumpyRandom}
    (bottom1 bottom2 : Tensor R) (D : Z) (cfg : Config) (B H W : nat)
    (h1 h2 : list Z) (s1 s2 : list Q) (w : World) (t : Tensor R) :
  shape bottom1 = [B; H; W; length h1] ->
  shape bottom2 = [B; H; W; length h2] ->
  1 <= length h1 -> 1 <= length h2 ->
  length h1 = length s1 -> length h2 = length s2 ->
  Forall (fun z => (0 <= z < D)%Z) h1 ->
  Forall (fun z => (0 <= z < D)%Z) h2 ->
  rand_h_1 cfg = Some (array1 (map inject_Z h1)) ->
  rand_s_1 cfg = Some (array1 s1) ->
  rand_h_2 cfg = Some (array1 (map inject_Z h2)) ->
  rand_s_2 cfg = Some (array1 s2) ->
  outcome (compact_bilinear_pooling_layer bottom1 bottom2 D cfg) w = Ok t ->
  forall r j, r < B * (H * W) -> j < Z.to_nat D ->
    nth (r * Z.to_nat D + j) (data t) 0%R
    = circular_convolution (Z.to_nat D)
        (sketch_entry h1 s1 (flat_rows bottom1 (B * (H * W)) (length h1)) r)
        (sketch_entry h2 s2 (flat_rows bottom2 (B * (H * W)) (length h2)) r)
        j.
Proof.
  intros S1 S2 C1 C2 L1 L2 R1 R2 G1 G2 G3 G4 Hok r j Hr Hj.
  rewrite (@pool_supplied_entry RNG bottom1 bottom2 D cfg B H W
             h1 h2 s1 s2 w S1 S2 C1 C2 L1 L2 R1 R2 G1 G2 G3 G4 t r j
             Hok Hr Hj).
  rewrite pool_entry_is_convolution by lia.
  rewrite (@bidx_lt (B * (H * W)) r) by exact Hr. reflexivity.
Qed.

(** One position, one channel each in bucket 1 of 2: sketches (0, 3) and
    (0, 5) convolve to (15, 0). *)
Lemma X3_circular_convolution_witness :
  exists t,
    outcome (@compact_bilinear_pooling_layer lcg_random
               {| shape := [1; 1; 1; 1]; data := [3%R] |}
               {| shape := [1; 1; 1; 1]; data := [5%R] |} 2
               (with_sketches [1%Q] [1%Q] [1%Q] [1%Q] false))
            (lcg_world 0) = Ok t
    /\ nth 0 (data t) 0%R = 15%R
    /\ nth 1 (data t) 0%R = 0%R.
Proof.
  assert (Hex : exists t,
    outcome (@compact_bilinear_pooling_layer lcg_random
               {| shape := [1; 1; 1; 1]; data := [3%R] |}
               {| shape := [1; 1; 1; 1]; data := [5%R] |} 2
               (with_sketches [1%Q] [1%Q] [1%Q] [1%Q] false))
            (lcg_world 0) = Ok t) by (eexists; reflexivity).
  destruct Hex as [t Hok]. exists t. split; [exact Hok|].
  pose proof (@X3_pooled_entries_are_circular_convolutions lcg_random
           {| shape := [1; 1; 1; 1]; data := [3%R] |}
           {| shape := [1; 1; 1; 1]; data := [5%R] |} 2%Z
           (with_sketches [1%Q] [1%Q] [1%Q] [1%Q] false)
           1 1 1 [1%Z] [1%Z] [1%Q] [1%Q] (lcg_world 0) t
           eq_refl eq_refl ltac:(simpl; lia) ltac:(simpl; lia)
           eq_refl eq_refl
           ltac:(repeat constructor; lia) ltac:(repeat constructor; lia)
           eq_refl eq_refl eq_refl eq_refl Hok) as Hc.
  split.
  - pose proof (Hc 0 0 ltac:(simpl; lia) ltac:(simpl; lia)) as H0.
    change (0 * Z.to_nat 2 + 0) with 0 in H0. rewrite H0.
    unfold circular_convolution, sketch_entry, flat_rows, get2, Q2R.
    simpl. field.
  - pose proof (Hc 0 1 ltac:(simpl; lia) ltac:(simpl; lia)) as H1.
    change (0 * Z.to_nat 2 + 1) with 1 in H1. rewrite H1.
    unfold circular_convolution, sketch_entry, flat_rows, get2, Q2R.
    simpl. field.
Defined.

(** X6. With the first stream and the sketches fixed, pooling is linear in
    the second stream as well (over the reals); when the calls raise, all
    three raise the same exception. *)
Theorem X6_pooling_linear_in_second_stream {RNG : NumpyRandom}
    (stream1 x y : Tensor R) (a b : R) (D : Z) (cfg : Config) (B H W : nat)
    (h1 h2 : list Z) (s1 s2 : list Q) (w : World) :
  shape stream1 = [B; H; W; length h1] ->
  shape x = [B; H; W; length h2] ->
  shape y = [B; H; W; length h2] ->
  wf_tensor x -> wf_tensor y ->
  1 <= length h1 -> 1 <= length h2 ->
  length h1 = length s1 -> length h2 = length s2 ->
  Forall (fun z => (0 <= z < D)%Z) h1 ->
  Forall (fun z => (0 <= z < D)%Z) h2 ->
  rand_h_1 cfg = Some (array1 (map inject_Z h1)) ->
  rand_s_1 cfg = Some (array1 s1) ->
  rand_h_2 cfg = Some (array1 (map inject_Z h2)) ->
  rand_s_2 cfg = Some (array1 s2) ->
  outcome (compact_bilinear_pooling_layer stream1 (lincomb a x b y) D cfg) w
  = lincomb_result
      a (outcome (compact_bilinear_pooling_layer stream1 x D cfg) w)
      b (outcome (compact_bilinear_pooling_layer stream1 y D cfg) w).
Proof.
  intros S1 Sx Sy Wx Wy C1 C2 L1 L2 R1 R2 G1 G2 G3 G4.
  assert (Sxy : shape (lincomb a x b y) = [B; H; W; length h2]) by exact Sx.
  assert (Exy : length (data x) = length (data y)).
  { unfold wf_tensor in Wx, Wy. rewrite Wx, Wy, Sx, Sy. reflexivity. }
  rewrite (@pool_supplied_outcome RNG stream1 (lincomb a x b y) D cfg B H W
             h1 h2 s1 s2 w S1 Sxy C1 C2 L1 L2 R1 R2 G1 G2 G3 G4).
  rewrite (@pool_supplied_outcome RNG stream1 x D cfg B H W
             h1 h2 s1 s2 w S1 Sx C1 C2 L1 L2 R1 R2 G1 G2 G3 G4).
  rewrite (@pool_supplied_outcome RNG stream1 y D cfg B H W
             h1 h2 s1 s2 w S1 Sy C1 C2 L1 L2 R1 R2 G1 G2 G3 G4).
  destruct (sequential cfg); [reflexivity|].
  rewrite !tf_reshape_4d. cbv zeta. rewrite !shape_tabulate2.
  destruct (H * (W * length h1) =? 0);
    [destruct (numel _ =? 0); [|reflexivity]
    |destruct (_ mod _ =? 0); [|reflexivity]];
    (unfold lincomb_result; rewrite lincomb_tabulate2; do 2 f_equal;
     apply (f_equal (@data R)); apply tabulate2_ext; intros r j _ _;
     rewrite <- pool_entry_linear_r; apply pool_entry_ext_rows; [reflexivity|];
     intro p; apply sketch_entry_linear; exact Exy).
Qed.

(** One pixel, one channel, one bucket. *)
Lemma X6_linear_in_second_stream_witness :
  let x := {| shape := [1; 1; 1; 1]; data := [2%R] |} in
  let y := {| shape := [1; 1; 1; 1]; data := [3%R] |} in
  let cfg := with_sketches [0%Q] [1%Q] [0%Q] [1%Q] false in
  let pool := fun t =>
    outcome (@compact_bilinear_pooling_layer lcg_random
               (ones [1; 1; 1; 1]) t 1 cfg) (lcg_world 0) in
  is_ok (pool x) = true
  /\ is_ok (pool y) = true
  /\ pool (lincomb 2 x 5 y) = lincomb_result 2 (pool x) 5 (pool y).
Proof.
  cbv zeta. split; [reflexivity|]. split; [reflexivity|].
  apply (@X6_pooling_linear_in_second_stream lcg_random
           (ones [1; 1; 1; 1])
           {| shape := [1; 1; 1; 1]; data := [2%R] |}
           {| shape := [1; 1; 1; 1]; data := [3%R] |}
           2%R 5%R 1%Z
           (with_sketches [0%Q] [1%Q] [0%Q] [1%Q] false)
           1 1 1 [0%Z] [0%Z] [1%Q] [1%Q] (lcg_world 0));
    try reflexivity; try (simpl; lia); try (repeat constructor; lia).
Defined.

(** X7. If either stream is all zeros, every element of the returned tensor
    is zero. *)
Theorem X7_zero_stream_gives_zero_output {RNG : NumpyRandom}
    (bottom1 bottom2 : Tensor R) (D : Z) (cfg : Config) (B H W : nat)
    (h1 h2 : list Z) (s1 s2 : list Q) (w : World) (t : Tensor R) :
  shape bottom1 = [B; H; W; length h1] ->
  shape bottom2 = [B; H; W; length h2] ->
  1 <= length h1 -> 1 <= length h2 ->
  length h1 = length s1 -> length h2 = length s2 ->
  Forall (fun z => (0 <= z < D)%Z) h1 ->
  Forall (fun z => (0 <= z < D)%Z) h2 ->
  rand_h_1 cfg = Some (array1 (map inject_Z h1)) ->
  rand_s_1 cfg = Some (array1 s1) ->
  rand_h_2 cfg = Some (array1 (map inject_Z h2)) ->
  rand_s_2 cfg = Some (array1 s2) ->
  outcome (compact_bilinear_pooling_layer
             (tf_zeros_like bottom1) bottom2 D cfg) w = Ok t
  \/ outcome (compact_bilinear_pooling_layer
                bottom1 (tf_zeros_like bottom2) D cfg) w = Ok t ->
  Forall (fun v => v = 0%R) (data t).
Proof.
  intros S1 S2 C1 C2 L1 L2 R1 R2 G1 G2 G3 G4 [Hok|Hok].
  - rewrite (@pool_supplied_data RNG (tf_zeros_like bottom1) bottom2 D cfg
               B H W h1 h2 s1 s2 w S1 S2 C1 C2 L1 L2 R1 R2 G1 G2 G3 G4 t Hok).
    apply Forall_tabulate2. intros r j _ _. apply pool_entry_zero. left.
    intro p. apply sketch_entry_zero.
  - rewrite (@pool_supplied_data RNG bottom1 (tf_zeros_like bottom2) D cfg
               B H W h1 h2 s1 s2 w S1 S2 C1 C2 L1 L2 R1 R2 G1 G2 G3 G4 t Hok).
    apply Forall_tabulate2. intros r j _ _. apply pool_entry_zero. right.
    intro p. apply sketch_entry_zero.
Qed.

(** A zero first input against a stream of ones. *)
Lemma X7_zero_stream_witness :
  exists t,
    outcome (@compact_bilinear_pooling_layer lcg_random
               (tf_zeros_like (ones [1; 1; 1; 1])) (ones [1; 1; 1; 1]) 1
               (with_sketches [0%Q] [1%Q] [0%Q] [1%Q] false))
            (lcg_world 0) = Ok t
    /\ Forall (fun v => v = 0%R) (data t).
Proof.
  assert (Hex : exists t,
    outcome (@compact_bilinear_pooling_layer lcg_random
               (tf_zeros_like (ones [1; 1; 1; 1])) (ones [1; 1; 1; 1]) 1
               (with_sketches [0%Q] [1%Q] [0%Q] [1%Q] false))
            (lcg_world 0) = Ok t) by (eexists; reflexivity).
  destruct Hex as [t Hok]. exists t. split; [exact Hok|].
  apply (@X7_zero_stream_gives_zero_output lcg_random
           (ones [1; 1; 1; 1]) (ones [1; 1; 1; 1]) 1%Z
           (with_sketches [0%Q] [1%Q] [0%Q] [1%Q] false)
           1 1 1 [0%Z] [0%Z] [1%Q] [1%Q] (lcg_world 0) t);
    try reflexivity; try (simpl; lia); try (repeat constructor; lia).
  left. exact Hok.
Defined.

(** X8. For two inputs of one shape, exchanging the streams together with
    their sketches does not change what the call returns. *)
Theorem X8_pooling_symmetric_in_the_streams {RNG : NumpyRandom}
    (bottom1 bottom2 : Tensor R) (D : Z) (cfg : Config) (B H W : nat)
    (h1 h2 : list Z) (s1 s2 : list Q) (w : World) :
  shape bottom1 = [B; H; W; length h1] ->
  shape bottom2 = [B; H; W; length h2] ->
  length h1 = length h2 ->
  1 <= length h1 ->
  length h1 = length s1 -> length h2 = length s2 ->
  Forall (fun z => (0 <= z < D)%Z) h1 ->
  Forall (fun z => (0 <= z < D)%Z) h2 ->
  rand_h_1 cfg = Some (array1 (map inject_Z h1)) ->
  rand_s_1 cfg = Some (array1 s1) ->
  rand_h_2 cfg = Some (array1 (map inject_Z h2)) ->
  rand_s_2 cfg = Some (array1 s2) ->
  outcome (compact_bilinear_pooling_layer bottom1 bottom2 D cfg) w
  = outcome (compact_bilinear_pooling_layer bottom2 bottom1 D
               (swap_streams cfg)) w.
Proof.
  intros S1 S2 E12 C1 L1 L2 R1 R2 G1 G2 G3 G4.
  assert (C2 : 1 <= length h2) by lia.
  rewrite (@pool_supplied_outcome RNG bottom1 bottom2 D cfg B H W
             h1 h2 s1 s2 w S1 S2 C1 C2 L1 L2 R1 R2 G1 G2 G3 G4).
  rewrite (@pool_supplied_outcome RNG bottom2 bottom1 D (swap_streams cfg)
             B H W h2 h1 s2 s1 w S2 S1 C2 C1 L2 L1 R2 R1 G3 G4 G1 G2).
  cbn [sequential swap_streams]. destruct (sequential cfg); [reflexivity|].
  rewrite E12. f_equal. apply tabulate2_ext. intros r j _ _.
  apply pool_entry_swap.
Qed.

(** One position, two channels, two buckets. *)
Lemma X8_symmetric_witness :
  outcome (@compact_bilinear_pooling_layer lcg_random
             {| shape := [1; 1; 1; 2]; data := [2%R; 3%R] |}
             {| shape := [1; 1; 1; 2]; data := [5%R; 7%R] |} 2
             (with_sketches [0%Q; 1%Q] [1%Q; 1%Q]
                            [1%Q; 1%Q] [1%Q; (- (1))%Q] false))
          (lcg_world 0)
  = outcome (@compact_bilinear_pooling_layer lcg_random
               {| shape := [1; 1; 1; 2]; data := [5%R; 7%R] |}
               {| shape := [1; 1; 1; 2]; data := [2%R; 3%R] |} 2
               (swap_streams
                  (with_sketches [0%Q; 1%Q] [1%Q; 1%Q]
                                 [1%Q; 1%Q] [1%Q; (- (1))%Q] false)))
            (lcg_world 0).
Proof.
  apply (@X8_pooling_symmetric_in_the_streams lcg_random
           {| shape := [1; 1; 1; 2]; data := [2%R; 3%R] |}
           {| shape := [1; 1; 1; 2]; data := [5%R; 7%R] |} 2%Z
           (with_sketches [0%Q; 1%Q] [1%Q; 1%Q]
                          [1%Q; 1%Q] [1%Q; (- (1))%Q] false)
           1 1 1 [0; 1]%Z [1; 1]%Z [1%Q; 1%Q] [1%Q; (- (1))%Q] (lcg_world 0));
    try reflexivity; try (simpl; lia); try (repeat constructor; lia).
Defined.

(** X9. Positions are pooled independently: two first inputs that agree on
    the channels of position r give results that agree on the output_dim
    elements computed for position r. *)
Theorem X9_positions_are_pooled_independently {RNG : NumpyRandom}
    (x x' bottom2 : Tensor R) (D : Z) (cfg : Config) (B H W : nat)
    (h1 h2 : list Z) (s1 s2 : list Q) (w : World) (t t' : Tensor R)
    (r : nat) :
  shape x = [B; H; W; length h1] ->
  shape x' = [B; H; W; length h1] ->
  shape bottom2 = [B; H; W; length h2] ->
  1 <= length h1 -> 1 <= length h2 ->
  length h1 = length s1 -> length h2 = length s2 ->
  Forall (fun z => (0 <= z < D)%Z) h1 ->
  Forall (fun z => (0 <= z < D)%Z) h2 ->
  rand_h_1 cfg = Some (array1 (map inject_Z h1)) ->
  rand_s_1 cfg = Some (array1 s1) ->
  rand_h_2 cfg = Some (array1 (map inject_Z h2)) ->
  rand_s_2 cfg = Some (array1 s2) ->
  r < B * (H * W) ->
  (forall i, i < length h1 ->
     nth (r * length h1 + i) (data x) 0%R
     = nth (r * length h1 + i) (data x') 0%R) ->
  outcome (compact_bilinear_pooling_layer x bottom2 D cfg) w = Ok t ->
  outcome (compact_bilinear_pooling_layer x' bottom2 D cfg) w = Ok t' ->
  forall j, j < Z.to_nat D ->
    nth (r * Z.to_nat D + j) (data t) 0%R
    = nth (r * Z.to_nat D + j) (data t') 0%R.
Proof.
  intros Sx Sx' S2 C1 C2 L1 L2 R1 R2 G1 G2 G3 G4 Hr Hrow Hok Hok' j Hj.
  rewrite (@pool_supplied_entry RNG x bottom2 D cfg B H W h1 h2 s1 s2 w
             Sx S2 C1 C2 L1 L2 R1 R2 G1 G2 G3 G4 t r j Hok Hr Hj).
  rewrite (@pool_supplied_entry RNG x' bottom2 D cfg B H W h1 h2 s1 s2 w
             Sx' S2 C1 C2 L1 L2 R1 R2 G1 G2 G3 G4 t' r j Hok' Hr Hj).
  apply pool_entry_ext_rows; [|reflexivity].
  intro p. rewrite (@bidx_lt (B * (H * W)) r) by exact Hr.
  unfold sketch_entry. f_equal. apply map_ext_in. intros i Hi.
  apply filter_In in Hi. destruct Hi as [Hi _]. apply in_seq in Hi.
  unfold get2, flat_rows, ncols. cbn [shape data nth].
  rewrite Hrow by lia. reflexivity.
Qed.

(** Two positions; the inputs differ at position 1 only and the results agree
    at position 0. *)
Lemma X9_positions_witness :
  let cfg := with_sketches [0%Q] [1%Q] [0%Q] [1%Q] false in
  exists t t',
    outcome (@compact_bilinear_pooling_layer lcg_random
               {| shape := [2; 1; 1; 1]; data := [4%R; 8%R] |}
               (ones [2; 1; 1; 1]) 1 cfg) (lcg_world 0) = Ok t
    /\ outcome (@compact_bilinear_pooling_layer lcg_random
                  {| shape := [2; 1; 1; 1]; data := [4%R; 9%R] |}
                  (ones [2; 1; 1; 1]) 1 cfg) (lcg_world 0) = Ok t'
    /\ nth 0 (data t) 0%R = nth 0 (data t') 0%R.
Proof.
  cbv zeta.
  assert (Hex : exists t,
    outcome (@compact_bilinear_pooling_layer lcg_random
               {| shape := [2; 1; 1; 1]; data := [4%R; 8%R] |}
               (ones [2; 1; 1; 1]) 1
               (with_sketches [0%Q] [1%Q] [0%Q] [1%Q] false))
            (lcg_world 0) = Ok t) by (eexists; reflexivity).
  assert (Hex' : exists t,
    outcome (@compact_bilinear_pooling_layer lcg_random
               {| shape := [2; 1; 1; 1]; data := [4%R; 9%R] |}
               (ones [2; 1; 1; 1]) 1
               (with_sketches [0%Q] [1%Q] [0%Q] [1%Q] false))
            (lcg_world 0) = Ok t) by (eexists; reflexivity).
  destruct Hex as [t Hok], Hex' as [t' Hok'].
  exists t, t'. split; [exact Hok|]. split; [exact Hok'|].
  apply (@X9_positions_are_pooled_independently lcg_random
           {| shape := [2; 1; 1; 1]; data := [4%R; 8%R] |}
           {| shape := [2; 1; 1; 1]; data := [4%R; 9%R] |}
           (ones [2; 1; 1; 1]) 1%Z
           (with_sketches [0%Q] [1%Q] [0%Q] [1%Q] false)
           2 1 1 [0%Z] [0%Z] [1%Q] [1%Q] (lcg_world 0) t t' 0
           eq_refl eq_refl eq_refl ltac:(simpl; lia) ltac:(simpl; lia)
           eq_refl eq_refl
           ltac:(repeat constructor; lia) ltac:(repeat constructor; lia)
           eq_refl eq_refl eq_refl eq_refl ltac:(simpl; lia)
           ltac:(intros i Hi; simpl in Hi;
                 assert (i = 0) as -> by lia; reflexivity)
           Hok Hok' 0 ltac:(simpl; lia)).
Defined.

(* ------------------------------------------------------------------ *)
(** ** The projection as a partition of the channels *)

(** Summed over the buckets, a count sketch row is the signed sum of the
    channels: every channel lands in exactly one bucket. *)
Lemma sketch_row_total (h : list Z) (s : list Q) (D : Z) (x : Tensor R) n :
  Forall (fun z => (0 <= z < D)%Z) h ->
  Rsum (map (fun b => sketch_entry h s x n b) (seq 0 (Z.to_nat D)))
  = Rsum (map (fun i => (Q2R (nth i s 0%Q) * get2 0%R x n i)%R)
              (seq 0 (length h))).
Proof.
  intro Hr. unfold sketch_entry.
  rewrite (@map_ext _ _ _ _
             (fun b => eq_sym (@Rsum_select
                (fun i => (nth i h 0 =? Z.of_nat b)%Z)
                (fun i => Q2R (nth i s 0%Q)) (fun i => get2 0%R x n i)
                (seq 0 (length h))))).
  rewrite (Rsum_exchange
             (fun b i => ((if (nth i h 0 =? Z.of_nat b)%Z
                           then Q2R (nth i s 0%Q) else 0) * get2 0%R x n i)%R)).
  f_equal. apply map_ext_in. intros i Hi. apply in_seq in Hi.
  assert (Hz : (0 <= nth i h 0 < D)%Z).
  { rewrite Forall_forall in Hr. apply Hr. apply nth_In. lia. }
  transitivity
    (Rsum (map (fun b => if Z.to_nat (nth i h 0%Z) =? b
                         then (Q2R (nth i s 0%Q) * get2 0%R x n i)%R else 0%R)
               (seq 0 (Z.to_nat D)))).
  - f_equal. apply map_ext. intro b.
    destruct (Z.to_nat (nth i h 0%Z) =? b) eqn:E.
    + apply Nat.eqb_eq in E.
      replace (nth i h 0 =? Z.of_nat b)%Z with true
        by (symmetry; apply Z.eqb_eq; lia). reflexivity.
    + apply Nat.eqb_neq in E.
      replace (nth i h 0 =? Z.of_nat b)%Z with false
        by (symmetry; apply Z.eqb_neq; lia). ring.
  - rewrite Rsum_delta.
    replace (Z.to_nat (nth i h 0%Z) <? Z.to_nat D) with true
      by (symmetry; apply Nat.ltb_lt; lia). reflexivity.
Qed.

(** X10. Every channel lands in exactly one bucket: summed over the buckets,
    a row of the projection is the signed sum of all channels of that
    position. *)
Theorem X10_projection_row_sums_to_signed_channel_sum
    (x : Tensor R) (N : nat) (h : list Z) (s : list Q) (D : Z) :
  shape x = [N; length h] ->
  length h = length s ->
  Forall (fun z => (0 <= z < D)%Z) h ->
  exists sp m,
    _generate_sketch_matrix (array1 (map inject_Z h)) (array1 s) D = Ok sp
    /\ tf_sparse_sparse_dense_matmul sp x true true = Ok m
    /\ forall n, n < N ->
         Rsum (map (fun b => get2 0%R (tf_transpose 0%R m) n b)
                   (seq 0 (Z.to_nat D)))
         = Rsum (map (fun i => (Q2R (nth i s 0%Q) * get2 0%R x n i)%R)
                     (seq 0 (length h))).
Proof.
  intros Hx E Hr.
  assert (Hgen := @generate_sketch_matrix_ok (map inject_Z h) s D).
  rewrite length_map, map_Qtrunc_inject_Z in Hgen.
  specialize (Hgen E Hr).
  assert (Els : length h = length (map Q2R s)) by (rewrite length_map; exact E).
  eexists; eexists. split; [exact Hgen|]. split.
  - apply (@matmul_sketch _ x h (map Q2R s) N D Els);
      [reflexivity|reflexivity|exact Hx].
  - intros n Hn. rewrite <- (sketch_row_total s x n Hr). f_equal.
    apply map_ext_in. intros b Hb. apply in_seq in Hb.
    rewrite get2_transpose by (rewrite ?ncols_tabulate2, ?nrows_tabulate2; lia).
    rewrite get2_tabulate2 by lia. unfold sketch_entry. f_equal.
    apply map_ext_in. intros i Hi. apply filter_In in Hi.
    destruct Hi as [Hi _]. apply in_seq in Hi.
    rewrite nth_map_Q2R by lia. reflexivity.
Qed.

(** Three channels in two buckets: 5 - 3 + 4 = 6. *)
Lemma X10_projection_row_sum_witness :
  exists sp m,
    _generate_sketch_matrix (array1 (map inject_Z [1; 0; 1]%Z))
      (array1 [1%Q; (- (1))%Q; 1%Q]) 2 = Ok sp
    /\ tf_sparse_sparse_dense_matmul sp
         {| shape := [1; 3]; data := [5%R; 3%R; 4%R] |} true true = Ok m
    /\ Rsum (map (fun b => get2 0%R (tf_transpose 0%R m) 0 b) (seq 0 2))
       = 6%R.
Proof.
  destruct (@X10_projection_row_sums_to_signed_channel_sum
              {| shape := [1; 3]; data := [5%R; 3%R; 4%R] |} 1
              [1; 0; 1]%Z [1%Q; (- (1))%Q; 1%Q] 2%Z
              eq_refl eq_refl ltac:(repeat constructor; lia))
    as [sp [m [Hgen [Hm Hsum]]]].
  exists sp, m. split; [exact Hgen|]. split; [exact Hm|].
  change (Z.to_nat 2) with 2 in Hsum. rewrite (Hsum 0) by lia.
  unfold get2, Q2R; simpl. field.
Defined.

(* ------------------------------------------------------------------ *)
(** ** Calls that cannot return *)

(** A sequential call on valid one-pixel inputs. *)
Lemma sequential_never_returns_witness :
  is_ok (outcome (@compact_bilinear_pooling_layer lcg_random
                    (ones [1; 1; 1; 1]) (ones [1; 1; 1; 1]) 1
                    (with_sketches [0%Q] [1%Q] [0%Q] [1%Q] true))
                 (lcg_world 0))
  = false.
Proof.
  apply (@sequential_never_returns lcg_random). reflexivity.
Defined.

(** Batches of 2 and of 3 with drawn sketches. *)
Lemma unequal_position_counts_never_return_witness :
  is_ok (outcome (@compact_bilinear_pooling_layer lcg_random
                    (ones [2; 1; 1; 1]) (ones [3; 1; 1; 1]) 1
                    default_config) (lcg_world 0))
  = false.
Proof.
  apply (@unequal_position_counts_never_return lcg_random
           (ones [2; 1; 1; 1]) (ones [3; 1; 1; 1]) 1%Z default_config
           2 1 1 1 3 1 1 1 (lcg_world 0));
    try reflexivity; simpl; lia.
Defined.

(** X13. A first input of rank below 4 never gets through: the shape
    look-ups of line 129 (or already of line 84) raise. *)
Theorem X13_first_input_of_low_rank_never_returns {RNG : NumpyRandom}
    (bottom1 bottom2 : Tensor R) (D : Z) (cfg : Config) (w : World) :
  length (shape bottom1) < 4 ->
  is_ok (outcome (compact_bilinear_pooling_layer bottom1 bottom2 D cfg) w)
  = false.
Proof.
  intro Hrank.
  assert (H3 : get_shape_at bottom1 3 = Raise IndexError).
  { unfold get_shape_at.
    replace (nth_error (shape bottom1) 3) with (@None nat); [reflexivity|].
    symmetry. apply nth_error_None. lia. }
  unfold outcome, compact_bilinear_pooling_layer, bind, lift, print.
  rewrite H3. repeat step.
Qed.

(** A first input of rank 2. *)
Lemma X13_low_rank_witness :
  is_ok (outcome (@compact_bilinear_pooling_layer lcg_random
                    (ones [2; 1]) (ones [2; 1]) 1
                    (with_sketches [0%Q] [1%Q] [0%Q] [1%Q] false))
                 (lcg_world 0))
  = false.
Proof.
  apply (@X13_first_input_of_low_rank_never_returns lcg_random).
  simpl. lia.
Defined.




(** X15. The function has no test of [output_dim] itself, yet a non-positive
    [output_dim] never yields a matrix once there is a bucket index to test:
    the range assertion (or the rank and length assertion before it)
    fails. *)
Theorem X15_nonpositive_output_dim_is_rejected (h s : ndarray Q) (D : Z) :
  (D <= 0)%Z -> nd_data h <> [] ->
  _generate_sketch_matrix h s D = Raise AssertionError.
Proof.
  intros HD Hne.
  unfold _generate_sketch_matrix, ndim, np_len, astype_int64, astype_float32.
  cbn [nd_shape nd_data].
  destruct (_ && _ && _); [|reflexivity]. cbn [py_assert rbind].
  rewrite forallb_range_false; [reflexivity|].
  destruct (nd_data h) as [|q l]; [congruence|].
  cbn [map]. apply Exists_cons_hd. lia.
Qed.

(** One valid-looking index and no bucket at all. *)
Lemma X15_nonpositive_output_dim_witness :
  _generate_sketch_matrix (array1 [0%Q]) (array1 [1%Q]) 0
  = Raise AssertionError.
Proof.
  apply (@X15_nonpositive_output_dim_is_rejected
           (array1 [0%Q]) (array1 [1%Q]) 0%Z); [lia|].
  simpl. discriminate.
Defined.

(* ------------------------------------------------------------------ *)
(** ** Drawn sketches *)

Lemma draw_rand_h_run {RNG : NumpyRandom} seed (D : Z) n l g (w : World) :
  valid_seed seed ->
  randint D n (seeded seed) = (Ok l, g) ->
  draw_rand_h seed D n w
  = (Ok (array1 (map inject_Z l)),
     {| np_random := g; stdout := stdout w |}).
Proof.
  intros [Hs1 Hs2] Hr.
  unfold draw_rand_h, bind, np_random_seed, np_random_randint, ret.
  replace ((0 <=? seed)%Z && (seed <? 2 ^ 32)%Z) with true
    by (symmetry; apply andb_true_iff; split;
        [apply Z.leb_le | apply Z.ltb_lt]; assumption).
  cbn [np_random stdout]. rewrite Hr. cbn [rbind np_random stdout].
  unfold of_int_array, array1. cbn [nd_shape nd_data].
  rewrite length_map. reflexivity.
Qed.

Lemma draw_rand_s_run {RNG : NumpyRandom} seed n l g (w : World) :
  valid_seed seed ->
  randint 2 n (seeded seed) = (Ok l, g) ->
  draw_rand_s seed n w
  = (Ok (array1 (map inject_Z (map (fun z => (2 * z - 1)%Z) l))),
     {| np_random := g; stdout := stdout w |}).
Proof.
  intros [Hs1 Hs2] Hr.
  unfold draw_rand_s, bind, np_random_seed, np_random_randint, ret.
  replace ((0 <=? seed)%Z && (seed <? 2 ^ 32)%Z) with true
    by (symmetry; apply andb_true_iff; split;
        [apply Z.leb_le | apply Z.ltb_lt]; assumption).
  cbn [np_random stdout]. rewrite Hr. cbn [rbind np_random stdout].
  unfold of_int_array, array1. cbn [nd_shape nd_data].
  rewrite !length_map. reflexivity.
Qed.

(** A call that draws its four arrays returns what any call returns that is
    given those arrays, from any state. *)
Lemma drawn_outcome {RNG : NumpyRandom}
    (bottom1 bottom2 : Tensor R) (D : Z) (cfg cfg' : Config)
    (C1 C2 : nat) (l1 m1 l2 m2 : list Z) (g1 g1' g2 g2' : rng_state)
    (w w' : World) :
  last_dim bottom1 = Ok C1 -> last_dim bottom2 = Ok C2 ->
  rand_h_1 cfg = None -> rand_s_1 cfg = None ->
  rand_h_2 cfg = None -> rand_s_2 cfg = None ->
  valid_seed (seed_h_1 cfg) -> valid_seed (seed_s_1 cfg) ->
  valid_seed (seed_h_2 cfg) -> valid_seed (seed_s_2 cfg) ->
  randint D C1 (seeded (seed_h_1 cfg)) = (Ok l1, g1) ->
  randint 2 C1 (seeded (seed_s_1 cfg)) = (Ok m1, g1') ->
  randint D C2 (seeded (seed_h_2 cfg)) = (Ok l2, g2) ->
  randint 2 C2 (seeded (seed_s_2 cfg)) = (Ok m2, g2') ->
  rand_h_1 cfg' = Some (array1 (map inject_Z l1)) ->
  rand_s_1 cfg'
  = Some (array1 (map inject_Z (map (fun z => (2 * z - 1)%Z) m1))) ->
  rand_h_2 cfg' = Some (array1 (map inject_Z l2)) ->
  rand_s_2 cfg'
  = Some (array1 (map inject_Z (map (fun z => (2 * z - 1)%Z) m2))) ->
  sequential cfg' = sequential cfg ->
  outcome (compact_bilinear_pooling_layer bottom1 bottom2 D cfg) w
  = outcome (compact_bilinear_pooling_layer bottom1 bottom2 D cfg') w'.
Proof.
  intros L1 L2 N1 N2 N3 N4 V1 V2 V3 V4 D1 D2 D3 D4 G1 G2 G3 G4 Hseq.
  unfold outcome, compact_bilinear_pooling_layer, bind, lift, or_else, print.
  rewrite L1, L2, N1, N2, N3, N4, G1, G2, G3, G4, Hseq.
  rewrite (fun w0 => @draw_rand_h_run _ _ _ _ _ _ w0 V1 D1).
  rewrite (fun w0 => @draw_rand_s_run _ _ _ _ _ w0 V2 D2).
  unfold ret.
  destruct (_generate_sketch_matrix _ _ D) as [sp1|e]; [|reflexivity].
  rewrite (fun w0 => @draw_rand_h_run _ _ _ _ _ _ w0 V3 D3).
  rewrite (fun w0 => @draw_rand_s_run _ _ _ _ _ w0 V4 D4).
  repeat step.
Qed.

Lemma lcg_draw_spec (high : Z) n g :
  (0 < high)%Z ->
  length (fst (lcg_draw high n g)) = n
  /\ Forall (fun z => (0 <= z < high)%Z) (fst (lcg_draw high n g)).
Proof.
  intro Hh. revert g; induction n as [|n IH]; intro g.
  - split; [reflexivity|constructor].
  - cbn [lcg_draw]. specialize (IH (lcg_next g)).
    destruct (lcg_draw high n (lcg_next g)) as [l g'].
    cbn [fst] in *. destruct IH as [IH1 IH2].
    split; [cbn [length]; lia|]. constructor; [|exact IH2].
    apply Z.mod_pos_bound. exact Hh.
Qed.

(** The stand-in generator honours the contract. *)
Lemma lcg_honours_contract : @randint_contract lcg_random.
Proof.
  intros high n g Hh. cbn [randint lcg_random].
  replace (high <=? 0)%Z with false by (symmetry; apply Z.leb_gt; exact Hh).
  destruct (lcg_draw high n g) as [l g'] eqn:E.
  exists l, g'. split; [reflexivity|].
  pose proof (@lcg_draw_spec high n g Hh) as Hs. rewrite E in Hs. exact Hs.
Qed.

(** X16. Omitting the four arrays is the same as supplying the arrays numpy
    draws after seeding: with valid seeds, a call without arrays returns (or
    raises) what the call returns that is given, as [rand_h] and [rand_s],
    the draws [randint(output_dim)] and [2 * randint(2) - 1] made from the
    freshly seeded generator. *)
Theorem X16_drawn_sketches_equal_supplied_sketches {RNG : NumpyRandom}
    (bottom1 bottom2 : Tensor R) (D : Z) (cfg : Config)
    (C1 C2 : nat) (l1 m1 l2 m2 : list Z) (g1 g1' g2 g2' : rng_state)
    (w : World) :
  last_dim bottom1 = Ok C1 -> last_dim bottom2 = Ok C2 ->
  rand_h_1 cfg = None -> rand_s_1 cfg = None ->
  rand_h_2 cfg = None -> rand_s_2 cfg = None ->
  valid_seed (seed_h_1 cfg) -> valid_seed (seed_s_1 cfg) ->
  valid_seed (seed_h_2 cfg) -> valid_seed (seed_s_2 cfg) ->
  randint D C1 (seeded (seed_h_1 cfg)) = (Ok l1, g1) ->
  randint 2 C1 (seeded (seed_s_1 cfg)) = (Ok m1, g1') ->
  randint D C2 (seeded (seed_h_2 cfg)) = (Ok l2, g2) ->
  randint 2 C2 (seeded (seed_s_2 cfg)) = (Ok m2, g2') ->
  outcome (compact_bilinear_pooling_layer bottom1 bottom2 D cfg) w
  = outcome (compact_bilinear_pooling_layer bottom1 bottom2 D
               (with_sketches
                  (map inject_Z l1)
                  (map inject_Z (map (fun z => (2 * z - 1)%Z) m1))
                  (map inject_Z l2)
                  (map inject_Z (map (fun z => (2 * z - 1)%Z) m2))
                  (sequential cfg))) w.
Proof.
  intros L1 L2 N1 N2 N3 N4 V1 V2 V3 V4 D1 D2 D3 D4.
  apply (@drawn_outcome RNG bottom1 bottom2 D cfg _ C1 C2 l1 m1 l2 m2
           g1 g1' g2 g2' w w L1 L2 N1 N2 N3 N4 V1 V2 V3 V4 D1 D2 D3 D4);
    reflexivity.
Qed.

(** The default configuration on two-channel inputs, against the arrays
    the stand-in generator yields from seeds 1, 3, 5 and 7. *)
Lemma X16_drawn_sketches_witness :
  outcome (@compact_bilinear_pooling_layer lcg_random
             (ones [1; 1; 1; 2]) (ones [1; 1; 1; 2]) 2 default_config)
          (lcg_world 0)
  = outcome (@compact_bilinear_pooling_layer lcg_random
               (ones [1; 1; 1; 2]) (ones [1; 1; 1; 2]) 2
               (with_sketches
                  (map inject_Z (fst (lcg_draw 2 2 1)))
                  (map inject_Z
                     (map (fun z => (2 * z - 1)%Z) (fst (lcg_draw 2 2 3))))
                  (map inject_Z (fst (lcg_draw 2 2 5)))
                  (map inject_Z
                     (map (fun z => (2 * z - 1)%Z) (fst (lcg_draw 2 2 7))))
                  false))
            (lcg_world 0).
Proof.
  apply (@X16_drawn_sketches_equal_supplied_sketches lcg_random
           (ones [1; 1; 1; 2]) (ones [1; 1; 1; 2]) 2%Z default_config 2 2
           (fst (lcg_draw 2 2 1)) (fst (lcg_draw 2 2 3))
           (fst (lcg_draw 2 2 5)) (fst (lcg_draw 2 2 7))
           (snd (lcg_draw 2 2 1)) (snd (lcg_draw 2 2 3))
           (snd (lcg_draw 2 2 5)) (snd (lcg_draw 2 2 7)) (lcg_world 0));
    try reflexivity; try (unfold valid_seed; simpl; lia).
Defined.

(** X17. With a generator that honours numpy's [randint] contract, valid
    seeds and no arrays supplied, a batched call on two inputs of one batch,
    height and width, with [output_dim] equal to the channel count of the
    first, returns a tensor of shape [B, H, W, output_dim]: the drawn
    sketches always pass the assertions. *)
Theorem X17_call_with_drawn_sketches_returns {RNG : NumpyRandom}
    (bottom1 bottom2 : Tensor R) (cfg : Config) (B H W C1 C2 : nat)
    (w : World) :
  randint_contract ->
  shape bottom1 = [B; H; W; C1] ->
  shape bottom2 = [B; H; W; C2] ->
  1 <= C1 -> 1 <= C2 -> 1 <= H -> 1 <= W ->
  rand_h_1 cfg = None -> rand_s_1 cfg = None ->
  rand_h_2 cfg = None -> rand_s_2 cfg = None ->
  valid_seed (seed_h_1 cfg) -> valid_seed (seed_s_1 cfg) ->
  valid_seed (seed_h_2 cfg) -> valid_seed (seed_s_2 cfg) ->
  sequential cfg = false ->
  exists t,
    outcome (compact_bilinear_pooling_layer bottom1 bottom2 (Z.of_nat C1) cfg)
            w = Ok t
    /\ shape t = [B; H; W; C1].
Proof.
  intros Hc S1 S2 P1 P2 PH PW N1 N2 N3 N4 V1 V2 V3 V4 Hseq.
  assert (HD : (0 < Z.of_nat C1)%Z) by lia.
  destruct (Hc (Z.of_nat C1) C1 (seeded (seed_h_1 cfg)) HD)
    as [l1 [g1 [D1 [E1 R1]]]].
  destruct (Hc 2%Z C1 (seeded (seed_s_1 cfg)) ltac:(lia))
    as [m1 [g1' [D2 [E2 _]]]].
  destruct (Hc (Z.of_nat C1) C2 (seeded (seed_h_2 cfg)) HD)
    as [l2 [g2 [D3 [E3 R2]]]].
  destruct (Hc 2%Z C2 (seeded (seed_s_2 cfg)) ltac:(lia))
    as [m2 [g2' [D4 [E4 _]]]].
  set (s1 := map inject_Z (map (fun z => (2 * z - 1)%Z) m1)).
  set (s2 := map inject_Z (map (fun z => (2 * z - 1)%Z) m2)).
  set (cfg' := with_sketches (map inject_Z l1) s1 (map inject_Z l2) s2 false).
  rewrite (@drawn_outcome RNG bottom1 bottom2 (Z.of_nat C1) cfg cfg' C1 C2
             l1 m1 l2 m2 g1 g1' g2 g2' w w
             (last_dim_4d _ S1) (last_dim_4d _ S2)
             N1 N2 N3 N4 V1 V2 V3 V4 D1 D2 D3 D4
             eq_refl eq_refl eq_refl eq_refl (eq_sym Hseq)).
  assert (S1' : shape bottom1 = [B; H; W; length l1]) by (rewrite E1; exact S1).
  assert (S2' : shape bottom2 = [B; H; W; length l2]) by (rewrite E3; exact S2).
  assert (Ls1 : length l1 = length s1)
    by (unfold s1; rewrite !length_map; lia).
  assert (Ls2 : length l2 = length s2)
    by (unfold s2; rewrite !length_map; lia).
  rewrite (@pool_supplied_outcome RNG bottom1 bottom2 (Z.of_nat C1) cfg'
             B H W l1 l2 s1 s2 w S1' S2' ltac:(lia) ltac:(lia) Ls1 Ls2 R1 R2
             eq_refl eq_refl eq_refl eq_refl).
  cbn [sequential cfg' with_sketches]. rewrite tf_reshape_4d. cbv zeta.
  rewrite shape_tabulate2, Nat2Z.id, E1.
  assert (Hk : H * (W * C1) <> 0) by nia.
  replace (numel [B * (H * W); C1]) with (B * (H * (W * C1)))
    by (unfold numel; simpl; lia).
  replace (H * (W * C1) =? 0) with false
    by (symmetry; apply Nat.eqb_neq; exact Hk).
  rewrite Nat.Div0.mod_mul, Nat.div_mul by exact Hk. cbn [Nat.eqb].
  eexists. split; reflexivity.
Qed.

(** The default configuration, three channels and three buckets. *)
Lemma X17_call_with_drawn_sketches_witness :
  exists t,
    outcome (@compact_bilinear_pooling_layer lcg_random
               (ones [2; 1; 1; 3]) (ones [2; 1; 1; 2]) 3 default_config)
            (lcg_world 0) = Ok t
    /\ shape t = [2; 1; 1; 3].
Proof.
  apply (@X17_call_with_drawn_sketches_returns lcg_random
           (ones [2; 1; 1; 3]) (ones [2; 1; 1; 2]) default_config
           2 1 1 3 2 (lcg_world 0) lcg_honours_contract);
    try reflexivity; try lia; try (unfold valid_seed; simpl; lia).
Defined.

(** X18. With a generator that honours numpy's [randint] contract and valid
    seeds, the arrays drawn for one stream always form a valid sketch: [n]
    bucket indices in [0, output_dim) and [n] signs, each +1 or -1. *)
Theorem X18_drawn_arrays_form_a_valid_sketch {RNG : NumpyRandom}
    (seed_h seed_s D : Z) (n : nat) (w : World) :
  randint_contract ->
  valid_seed seed_h -> valid_seed seed_s -> (0 < D)%Z ->
  exists hz sz w1 w2,
    draw_rand_h seed_h D n w = (Ok (array1 (map inject_Z hz)), w1)
    /\ draw_rand_s seed_s n w1 = (Ok (array1 (map inject_Z sz)), w2)
    /\ length hz = n /\ length sz = n
    /\ Forall (fun z => (0 <= z < D)%Z) hz
    /\ Forall (fun z => z = 1%Z \/ z = (-1)%Z) sz
    /\ exists sp,
         _generate_sketch_matrix (array1 (map inject_Z hz))
           (array1 (map inject_Z sz)) D = Ok sp.
Proof.
  intros Hc Vh Vs HD.
  destruct (Hc D n (seeded seed_h) HD) as [l [g [Dh [El Rl]]]].
  destruct (Hc 2%Z n (seeded seed_s) ltac:(lia)) as [m [g' [Ds [Em Rm]]]].
  exists l, (map (fun z => (2 * z - 1)%Z) m).
  eexists. eexists.
  split; [apply (@draw_rand_h_run _ _ _ _ _ _ w Vh Dh)|].
  split; [apply (@draw_rand_s_run _ _ _ _ _ _ Vs Ds)|].
  split; [exact El|]. split; [rewrite length_map; exact Em|].
  split; [exact Rl|]. split.
  - apply Forall_forall. intros z Hz. apply in_map_iff in Hz.
    destruct Hz as [u [<- Hu]]. rewrite Forall_forall in Rm.
    specialize (Rm u Hu). lia.
  - eexists. apply generate_sketch_matrix_ok.
    + rewrite !length_map. lia.
    + rewrite map_Qtrunc_inject_Z. exact Rl.
Qed.

(** Three channels, four buckets, seeds 1 and 3. *)
Lemma X18_drawn_arrays_witness :
  exists hz sz w1 w2,
    @draw_rand_h lcg_random 1 4 3 (lcg_world 0)
    = (Ok (array1 (map inject_Z hz)), w1)
    /\ @draw_rand_s lcg_random 3 3 w1 = (Ok (array1 (map inject_Z sz)), w2)
    /\ length hz = 3 /\ length sz = 3
    /\ Forall (fun z => (0 <= z < 4)%Z) hz
    /\ Forall (fun z => z = 1%Z \/ z = (-1)%Z) sz
    /\ exists sp,
         _generate_sketch_matrix (array1 (map inject_Z hz))
           (array1 (map inject_Z sz)) 4 = Ok sp.
Proof.
  apply (@X18_drawn_arrays_form_a_valid_sketch lcg_random 1 3 4 3
           (lcg_world 0) lcg_honours_contract);
    unfold valid_seed; lia.
Defined.
